(** * Agent notebooks of DEVWKS-2382: a shallow embedding

    The notebooks contain three pieces of control code of their own:
    - the LangGraph [Agent] (nodes [llm] and [action], methods
      [exists_action], [call_openai] and [take_action]);
    - the hand-rolled ReAct loop ([Agent.__call__], [action_re], [query],
      [known_actions]);
    - the network assistant's [execute_cisco_command], [analyze_logs] and its
      interactive [__main__] loop.

    Python text is modelled as [string]: each character is read as a code
    point below 256 (ASCII and Latin-1); module [UText] widens the text of
    [analyze_logs] to the code points where [str.lower()] and
    [re.IGNORECASE] part ways.  Python exceptions are values of
    [exn]; a Python call that may raise returns [res A].  External services
    (the chat model, the search tool, the SSH connection, [eval]) are
    function arguments: they may return or raise anything. *)

From Stdlib Require Import String Ascii List ZArith NArith Bool Lia.
Import ListNotations.

Notation "a +s+ b" := (String.append a b) (at level 60, right associativity).

(** ** Python values, exceptions and results *)

(** A raised exception: the name of its class, [str(e)], and whether its
    class derives from [Exception] ([isinstance(e, Exception)]).  The class
    hierarchy is not determined by the name (a library may define a class
    deriving from [BaseException] only, as [asyncio.CancelledError] does), so
    the exception carries it. *)
Record exn := mk_exc { exn_type : string; exn_msg : string; exn_is_Exception : bool }.

(** [isinstance(e, Exception)], the test of [except Exception]. *)
Definition is_Exception (e : exn) : bool := exn_is_Exception e.

(** An exception of a class derived from [Exception]: the built-in errors
    ([IndexError], [EOFError], ...) and those of the libraries the notebooks
    call. *)
Definition mk_exn (ty msg : string) : exn := mk_exc ty msg true.

(** [raise Exception(msg)] *)
Definition Exception (msg : string) : exn := mk_exn "Exception" msg.

Inductive res (A : Type) : Type :=
| Ok (a : A)
| Raise (e : exn).
Arguments Ok {A} a.
Arguments Raise {A} e.

Definition res_bind {A B} (r : res A) (k : A -> res B) : res B :=
  match r with Ok a => k a | Raise e => Raise e end.

(** Python objects that tools return, and [str] of them. *)
Inductive pyval :=
| VStr (s : string)
| VInt (z : Z)
| VNone.

Fixpoint digits_aux (fuel : nat) (n : N) (acc : string) : string :=
  match fuel with
  | O => acc
  | S f =>
      let acc' := String (ascii_of_N (48 + N.modulo n 10)) acc in
      if (N.div n 10 =? 0)%N then acc' else digits_aux f (N.div n 10) acc'
  end.

Definition string_of_N (n : N) : string := digits_aux (S (N.size_nat n)) n EmptyString.

Definition py_str (v : pyval) : string :=
  match v with
  | VStr s => s
  | VInt z => if (z <? 0)%Z then "-" +s+ string_of_N (Z.abs_N z) else string_of_N (Z.to_N z)
  | VNone => "None"
  end.

(** ** Observable interactions

    Every run records the calls it makes to the outside world: a call of
    the chat model, or the invocation of a tool (name and argument). *)
Inductive event :=
| EvModel
| EvTool (name arg : string).

(** Effectful computations: the interactions performed, and the result. *)
Definition Eff (A : Type) : Type := (list event * res A)%type.

Definition ret {A} (a : A) : Eff A := ([], Ok a).
Definition raise {A} (e : exn) : Eff A := ([], Raise e).
Definition emit (ev : event) : Eff unit := ([ev], Ok tt).
Definition lift {A} (r : res A) : Eff A := ([], r).

Definition bind {A B} (m : Eff A) (k : A -> Eff B) : Eff B :=
  match m with
  | (l, Ok a) => let (l', r) := k a in (l ++ l', r)
  | (l, Raise e) => (l, Raise e)
  end.

Notation "x <- m ;; k" := (bind m (fun x => k)) (at level 61, m at next level, right associativity).
Notation "m ;;; k" := (bind m (fun _ => k)) (at level 61, right associativity).

(** ** Python dictionaries (insertion ordered, keyed by strings) *)

Fixpoint dict_get {V} (d : list (string * V)) (k : string) : option V :=
  match d with
  | [] => None
  | (k', v) :: d' => if String.eqb k k' then Some v else dict_get d' k
  end.

(** [d[k] = v]: overwrite in place, or append a new key. *)
Fixpoint dict_set {V} (d : list (string * V)) (k : string) (v : V) : list (string * V) :=
  match d with
  | [] => [(k, v)]
  | (k', v') :: d' => if String.eqb k k' then (k', v) :: d' else (k', v') :: dict_set d' k v
  end.

Definition dict_in {V} (k : string) (d : list (string * V)) : bool :=
  match dict_get d k with Some _ => true | None => false end.

(** [xs[-1]] *)
Definition last_elem {A} (xs : list A) : res A :=
  match rev xs with
  | x :: _ => Ok x
  | [] => Raise (mk_exn "IndexError" "list index out of range")
  end.

(** ** Python text operations *)

Definition nl : ascii := Ascii.ascii_of_nat 10.

Definition nl_str : string := String nl EmptyString.

(** [str.lower()] on code points below 256: A-Z and the Latin-1 capitals
    (192-222 except the multiplication sign 215). *)
Definition py_lower_char (c : ascii) : ascii :=
  let n := nat_of_ascii c in
  if ((65 <=? n) && (n <=? 90)) || ((192 <=? n) && (n <=? 222) && negb (n =? 215))
  then ascii_of_nat (n + 32) else c.

Fixpoint py_lower (s : string) : string :=
  match s with
  | EmptyString => EmptyString
  | String c r => String (py_lower_char c) (py_lower r)
  end.

(** The regular-expression class [\w] of a [str] pattern on code points below
    256: [str.isalnum()] or the underscore. *)
Definition is_word_char (c : ascii) : bool :=
  let n := nat_of_ascii c in
  ((48 <=? n) && (n <=? 57)) || ((65 <=? n) && (n <=? 90)) || (n =? 95)
  || ((97 <=? n) && (n <=? 122))
  || existsb (Nat.eqb n) [170; 178; 179; 181; 185; 186; 188; 189; 190]
  || ((192 <=? n) && (n <=? 214)) || ((216 <=? n) && (n <=? 246)) || (248 <=? n).

(** [s.split('\n')] *)
Fixpoint split_nl (s : string) : list string :=
  match s with
  | EmptyString => [EmptyString]
  | String c r =>
      let parts := split_nl r in
      if Ascii.eqb c nl then EmptyString :: parts
      else match parts with
           | [] => [String c EmptyString]
           | x :: xs => String c x :: xs
           end
  end.

(** The remainder of [s] after the literal prefix [p], if [s] starts with it. *)
Fixpoint strip_prefix (p s : string) : option string :=
  match p, s with
  | EmptyString, _ => Some s
  | String a p', String b s' => if Ascii.eqb a b then strip_prefix p' s' else None
  | String _ _, EmptyString => None
  end.

(** [s] cut before its first newline. *)
Fixpoint break_nl (s : string) : string * string :=
  match s with
  | EmptyString => (EmptyString, EmptyString)
  | String c r =>
      if Ascii.eqb c nl then (EmptyString, s)
      else let (a, b) := break_nl r in (String c a, b)
  end.

(** The longest prefix of characters satisfying [p], and the rest. *)
Fixpoint span (p : ascii -> bool) (s : string) : string * string :=
  match s with
  | EmptyString => (EmptyString, EmptyString)
  | String c r =>
      if p c then let (a, b) := span p r in (String c a, b) else (EmptyString, s)
  end.

Fixpoint all_chars (p : ascii -> bool) (s : string) : bool :=
  match s with
  | EmptyString => true
  | String c r => p c && all_chars p r
  end.

Definition no_nl (s : string) : bool := all_chars (fun c => negb (Ascii.eqb c nl)) s.

(** ** The LangGraph agent (first notebook, class [Agent]) *)
Module LangGraph.

(** A tool call of an [AIMessage]: [t['name']], [t['args']], [t['id']].
    The argument dictionary is kept as the text the model produced. *)
Record ToolCall := mk_call { tc_name : string; tc_args : string; tc_id : string }.

Record AIMessage := mk_ai { ai_content : string; tool_calls : list ToolCall }.

Inductive AnyMessage :=
| SystemMessage (content : string)
| HumanMessage (content : string)
| AIMsg (m : AIMessage)
| ToolMessage (tool_call_id name content : string).

(** A LangChain tool: its [name] and its [invoke] method. *)
Record Tool := mk_tool { tool_name : string; tool_invoke : string -> res pyval }.

(** The fields of an [Agent] object: [self.system], [self.tools] and
    [self.model] (the chat model with the tools bound). *)
Record Agent := mk_agent {
  system : string;
  tools : list (string * Tool);
  model : list AnyMessage -> res AIMessage
}.

(** [Agent.__init__]: [self.tools = {t.name: t for t in tools}]. *)
Definition make_agent (model_ : list AnyMessage -> res AIMessage) (tools_ : list Tool)
    (system_ : string) : Agent :=
  {| system := system_;
     tools := fold_left (fun d t => dict_set d (tool_name t) t) tools_ [];
     model := model_ |}.

(** [state['messages'][-1].tool_calls]: only an [AIMessage] has the
    attribute. *)
Definition last_tool_calls (st : list AnyMessage) : res (list ToolCall) :=
  res_bind (last_elem st) (fun m =>
    match m with
    | AIMsg a => Ok (tool_calls a)
    | _ => Raise (mk_exn "AttributeError" "object has no attribute 'tool_calls'")
    end).

(** [exists_action] *)
Definition exists_action (st : list AnyMessage) : res bool :=
  res_bind (last_tool_calls st) (fun calls => Ok (0 <? length calls)).

(** [call_openai]: the returned list is added to the state by the
    [operator.add] reducer. *)
Definition call_openai (ag : Agent) (st : list AnyMessage) : Eff (list AnyMessage) :=
  let messages := if String.eqb (system ag) EmptyString then st
                  else SystemMessage (system ag) :: st in
  emit EvModel ;;;
  message <- lift (model ag messages) ;;
  ret [AIMsg message].

Definition bad_tool_result : string := "bad tool name, retry".

(** The body of the [for t in tool_calls] loop of [take_action]. *)
Definition run_tool_call (ag : Agent) (t : ToolCall) : Eff AnyMessage :=
  match dict_get (tools ag) (tc_name t) with
  | None => ret (ToolMessage (tc_id t) (tc_name t) bad_tool_result)
  | Some tool =>
      emit (EvTool (tc_name t) (tc_args t)) ;;;
      result <- lift (tool_invoke tool (tc_args t)) ;;
      ret (ToolMessage (tc_id t) (tc_name t) (py_str result))
  end.

Fixpoint run_tool_calls (ag : Agent) (calls : list ToolCall) : Eff (list AnyMessage) :=
  match calls with
  | [] => ret []
  | t :: ts =>
      m <- run_tool_call ag t ;;
      ms <- run_tool_calls ag ts ;;
      ret (m :: ms)
  end.

(** [take_action] *)
Definition take_action (ag : Agent) (st : list AnyMessage) : Eff (list AnyMessage) :=
  calls <- lift (last_tool_calls st) ;;
  run_tool_calls ag calls.

(** *** The compiled graph

    Nodes [llm] and [action]; entry point [llm]; the conditional edge
    [exists_action] from [llm] ([True] to [action], [False] to [END]); the
    edge from [action] back to [llm].  A node's returned messages are
    appended to the state ([operator.add]); a node that raises aborts the
    run.  [fuel] bounds the number of node executions. *)
Inductive node := LLM | ACTION.

Inductive outcome :=
| Finished
| Aborted (at_node : node) (e : exn)
| OutOfFuel.

Record run_result := mk_run {
  steps : list (node * list AnyMessage);   (** completed nodes and their updates *)
  trace : list event;
  result : outcome;
  final_state : list AnyMessage
}.

Definition node_fn (ag : Agent) (n : node) : list AnyMessage -> Eff (list AnyMessage) :=
  match n with LLM => call_openai ag | ACTION => take_action ag end.

Definition cons_step (n : node) (upd : list AnyMessage) (ev : list event) (r : run_result) :=
  {| steps := (n, upd) :: steps r; trace := ev ++ trace r;
     result := result r; final_state := final_state r |}.

Fixpoint run_graph (ag : Agent) (fuel : nat) (n : node) (st : list AnyMessage) : run_result :=
  match fuel with
  | O => mk_run [] [] OutOfFuel st
  | S f =>
      match node_fn ag n st with
      | (ev, Raise e) => mk_run [] ev (Aborted n e) st
      | (ev, Ok upd) =>
          let st' := st ++ upd in
          match n with
          | ACTION => cons_step ACTION upd ev (run_graph ag f LLM st')
          | LLM =>
              match exists_action st' with
              | Raise e => mk_run [] ev (Aborted LLM e) st
              | Ok true => cons_step LLM upd ev (run_graph ag f ACTION st')
              | Ok false => mk_run [(LLM, upd)] ev Finished st'
              end
          end
      end
  end.

(** The run of the graph from its entry point with a budget of [limit] node
    executions. *)
Definition run_invoke (ag : Agent) (limit : nat) (messages : list AnyMessage) : run_result :=
  run_graph ag limit LLM messages.





End LangGraph.

(** ** The hand-rolled ReAct loop (third notebook) *)
Module ReAct.

(** An entry [{"role": role, "content": content}] of [self.messages]. *)
Record ChatMsg := mk_msg { role : string; content : string }.

(** The fields of the notebook's [Agent]: [self.system], [self.messages]. *)
Record Bot := mk_bot { bot_system : string; messages : list ChatMsg }.

(** The chat-completion endpoint that [execute] calls with
    [self.messages], returning [completion.choices[0].message.content]. *)
Definition Client := list ChatMsg -> res string.

(** [Agent.__init__] *)
Definition init_bot (system : string) : Bot :=
  {| bot_system := system;
     messages := if String.eqb system EmptyString then [] else [mk_msg "system" system] |}.

(** [Agent.__call__]: the object is mutated in place; when [execute] raises,
    the mutation done before it stays. *)
Definition bot_call (client : Client) (b : Bot) (message : string) : Bot * res string :=
  let b1 := {| bot_system := bot_system b;
               messages := messages b ++ [mk_msg "user" message] |} in
  match client (messages b1) with
  | Raise e => (b1, Raise e)
  | Ok result =>
      ({| bot_system := bot_system b1;
          messages := messages b1 ++ [mk_msg "assistant" result] |}, Ok result)
  end.

(** [action_re.match(line)] with [action_re = re.compile(r'^Action: (\w+): (.* )$')]:
    the groups, when the line matches.  [\w+] cannot cross the colon, so it
    takes the whole run of word characters; [(.* )] stops at the first
    newline, where [$] needs the end of the text or a final newline. *)
Definition action_re_match (line : string) : option (string * string) :=
  match strip_prefix "Action: " line with
  | None => None
  | Some rest =>
      let (g1, rest2) := span is_word_char rest in
      if String.eqb g1 EmptyString then None
      else match strip_prefix ": " rest2 with
           | None => None
           | Some rest3 =>
               let (g2, tail) := break_nl rest3 in
               if String.eqb tail EmptyString || String.eqb tail nl_str
               then Some (g1, g2) else None
           end
  end.

Fixpoint first_some {A B} (f : A -> option B) (xs : list A) : option B :=
  match xs with
  | [] => None
  | x :: xs' => match f x with Some y => Some y | None => first_some f xs' end
  end.

(** [actions = [action_re.match(a) for a in result.split('\n') if ...]] and
    [actions[0].groups()] when [actions] is not empty. *)
Definition first_action (result : string) : option (string * string) :=
  first_some action_re_match (split_nl result).

Definition Action := string -> res pyval.

Definition unknown_action_msg (action action_input : string) : string :=
  "Unknown action: " +s+ action +s+ ": " +s+ action_input.

(** One iteration of the [while] loop of [query], after [i += 1]: the bot is
    asked [next_prompt]; the result is the next prompt, or [None] when the
    loop returns. *)
Definition turn (client : Client) (known : list (string * Action)) (b : Bot)
    (next_prompt : string) : Bot * Eff (option string) :=
  let (b1, r) := bot_call client b next_prompt in
  (b1,
   emit EvModel ;;;
   result <- lift r ;;
   match first_action result with
   | None => ret None
   | Some (action, action_input) =>
       match dict_get known action with
       | None => raise (Exception (unknown_action_msg action action_input))
       | Some f =>
           emit (EvTool action action_input) ;;;
           observation <- lift (f action_input) ;;
           ret (Some ("Observation: " +s+ py_str observation))
       end
   end).

(** The [while i < max_turns] loop; [n] is the number of iterations left,
    [max_turns - i]. *)
Fixpoint query_loop (client : Client) (known : list (string * Action)) (n : nat)
    (b : Bot) (next_prompt : string) : Eff unit :=
  match n with
  | O => ret tt
  | S n' =>
      let (b1, m) := turn client known b next_prompt in
      p <- m ;;
      match p with
      | None => ret tt
      | Some p' => query_loop client known n' b1 p'
      end
  end.

(** [query(question, max_turns)] over the dictionary [known] and the system
    prompt [prompt_]; [i] starts at 0, so the loop runs [max(0, max_turns)]
    times at most. *)
Definition query_with (client : Client) (known : list (string * Action)) (prompt_ : string)
    (question : string) (max_turns : Z) : Eff unit :=
  query_loop client known (Z.to_nat max_turns) (init_bot prompt_) question.

(** [average_elephant_weight] *)
Definition weights : list (string * string) :=
  [("african elephant", "An African Elephant weighs 12,000 lbs");
   ("asian elephant", "An Asian Elephant weighs 8,800 lbs");
   ("forest elephant", "A Forest Elephant weighs 6,000 lbs");
   ("pygmy elephant", "A Pygmy Elephant weighs 5,500 lbs");
   ("indian elephant", "An Indian Elephant weighs 9,000 lbs");
   ("sumatran elephant", "A Sumatran Elephant weighs 6,600 lbs");
   ("sri lankan elephant", "A Sri Lankan Elephant weighs 10,000 lbs")]%string.

Definition average_elephant_weight (species : string) : res pyval :=
  Ok (VStr (match dict_get weights (py_lower species) with
            | Some w => w
            | None => "Unknown elephant species"
            end)).

(** [calculate(what)] is [eval(what)]; Python's [eval] is the argument. *)
Definition calculate (py_eval : string -> res pyval) (what : string) : res pyval :=
  py_eval what.

Definition known_actions (py_eval : string -> res pyval) : list (string * Action) :=
  [("calculate"%string, calculate py_eval);
   ("average_elephant_weight"%string, average_elephant_weight)].

Definition prompt : string :=
"You run in a loop of Thought, Action, PAUSE, Observation.
At the end of the loop you output an Answer.
Use Thought to describe your thoughts about the question you have been asked.
Use Action to run one of the actions available to you - then return PAUSE.
Observation will be the result of running those actions.

Your available actions are:

calculate:
e.g. calculate: 4 * 7 / 3
Runs a calculation and returns the number - uses Python so be sure to use floating point syntax if necessary

average_elephant_weight:
e.g. average_elephant_weight: African Elephant
Returns the average weight of an elephant species when given the species name.

Example session:

Question: How much does an African Elephant weigh?
Thought: I should look up the elephant's weight using average_elephant_weight.
Action: average_elephant_weight: African Elephant
PAUSE

You will be called again with this:

Observation: An African Elephant weighs 12,000 lbs.

You then output:

Answer: An African Elephant weighs 12,000 lbs.".

(** [query(question, max_turns)] *)
Definition query (client : Client) (py_eval : string -> res pyval) (question : string)
    (max_turns : Z) : Eff unit :=
  query_with client (known_actions py_eval) prompt question max_turns.

(** [query(question)]: [max_turns=5]. *)
Definition query_default (client : Client) (py_eval : string -> res pyval)
    (question : string) : Eff unit :=
  query client py_eval question 5.

End ReAct.

(** ** The network assistant (second notebook) *)
Module Network.

(** The [device] dictionary passed to [ConnectHandler( **device)]. *)
Record Device := mk_device {
  device_type : string; host : string; username : string; password : string }.

Definition device : Device :=
  mk_device "cisco_ios" "198.18.128.3" "cisco" "cisco123".

(** The Netmiko session: [ConnectHandler], [send_command] and [disconnect]
    are external and may raise. *)
Record Netmiko (Conn : Type) := mk_netmiko {
  ConnectHandler : Device -> res Conn;
  send_command : Conn -> string -> res string;
  disconnect : Conn -> res unit
}.
Arguments ConnectHandler {Conn} n.
Arguments send_command {Conn} n.
Arguments disconnect {Conn} n.

(** [execute_cisco_command(command)] *)
Definition execute_cisco_command {Conn} (nm : Netmiko Conn) (command : string) : res string :=
  let body :=
    res_bind (ConnectHandler nm device) (fun connection =>
    res_bind (send_command nm connection command) (fun output =>
    res_bind (disconnect nm connection) (fun _ =>
    Ok output))) in
  match body with
  | Ok output => Ok output
  | Raise e => if is_Exception e then Ok ("Error: " +s+ exn_msg e) else Raise e
  end.

(** Whether [s] starts with [p]. *)
Definition starts_with (p s : string) : bool :=
  match strip_prefix p s with Some _ => true | None => false end.

(** [needle in hay] *)
Fixpoint py_in (needle hay : string) : bool :=
  match hay with
  | EmptyString => String.eqb needle EmptyString
  | String _ r => starts_with needle hay || py_in needle r
  end.

(** Literal [p] matched at the start of [s] under [re.IGNORECASE]: two
    characters match when their lower-case forms are equal. *)
Fixpoint starts_ci (p s : string) : bool :=
  match p, s with
  | EmptyString, _ => true
  | String a p', String b s' =>
      Ascii.eqb (py_lower_char a) (py_lower_char b) && starts_ci p' s'
  | String _ _, EmptyString => false
  end.

(** The scan of [re.findall(kw + ".*", s, re.IGNORECASE)]: at each position,
    try the pattern; a match runs to the next newline and the scan resumes
    after it, otherwise the scan moves one character on.  [fuel] bounds the
    number of positions. *)
Fixpoint findall_scan (fuel : nat) (kw s : string) : list string :=
  match fuel with
  | O => []
  | S f =>
      match s with
      | EmptyString => []
      | String _ r =>
          if starts_ci kw s
          then let (m, rest) := break_nl s in m :: findall_scan f kw rest
          else findall_scan f kw r
      end
  end.

Definition findall_ci (kw s : string) : list string :=
  findall_scan (S (String.length s)) kw s.

Definition no_issues : string := "No issues found in the logs.".

(** [analyze_logs(log_data)] *)
Definition analyze_logs (log_data : string) : string :=
  let errors := if py_in "error" (py_lower log_data) then findall_ci "error" log_data else [] in
  let warnings := if py_in "warning" (py_lower log_data) then findall_ci "warning" log_data else [] in
  let issues := errors ++ warnings in
  match issues with
  | [] => no_issues
  | _ => String.concat nl_str issues
  end.

(** The [while True] loop of [__main__]: [inputs] are the lines [input()]
    returns (at their end it raises [EOFError]); [agent_run] is
    [agent.run].  The result lists the lines printed. *)
Fixpoint main_loop (agent_run : string -> res string) (inputs : list string)
    : list string * res unit :=
  match inputs with
  | [] => ([], Raise (mk_exn "EOFError" "EOF when reading a line"))
  | user_input :: rest =>
      if existsb (String.eqb (py_lower user_input)) ["exit"; "quit"]%string
      then (["Goodbye!"%string], Ok tt)
      else
        let printed :=
          match agent_run user_input with
          | Ok response => Ok ("Response:" +s+ nl_str +s+ response)
          | Raise e => if is_Exception e then Ok ("Error: " +s+ exn_msg e) else Raise e
          end in
        match printed with
        | Raise e => ([], Raise e)
        | Ok line => let (ls, r) := main_loop agent_run rest in (line :: ls, r)
        end
  end.

Definition main (agent_run : string -> res string) (inputs : list string)
    : list string * res unit :=
  let (ls, r) := main_loop agent_run inputs in
  ("Welcome to the Smart Network Assistant!"%string :: ls, r).

End Network.

(** ** Text beyond Latin-1, for [analyze_logs]

    [analyze_logs] tests [str.lower()] and then searches with
    [re.IGNORECASE], and the two treat the Turkish letters İ (U+0130) and ı
    (U+0131) differently: [str.lower()] maps İ to "i" followed by U+0307
    (combining dot above) and leaves ı as it is, while a pattern letter "i"
    under [re.IGNORECASE] matches I, i, İ and ı.  Here a [str] is a list of
    code points among Latin-1 and these three, on which both operations are
    computed exactly. *)
Module UText.
Import Network.

Inductive uchar :=
| L1 (c : ascii)   (** a code point below 256 *)
| U0130            (** LATIN CAPITAL LETTER I WITH DOT ABOVE *)
| U0131            (** LATIN SMALL LETTER DOTLESS I *)
| U0307.           (** COMBINING DOT ABOVE *)

Definition ustr := list uchar.

Definition uchar_eqb (a b : uchar) : bool :=
  match a, b with
  | L1 x, L1 y => Ascii.eqb x y
  | U0130, U0130 | U0131, U0131 | U0307, U0307 => true
  | _, _ => false
  end.

(** A Latin-1 [string] as a [str]. *)
Fixpoint to_u (s : string) : ustr :=
  match s with
  | EmptyString => []
  | String c r => L1 c :: to_u r
  end.

(** [str.lower()], code point by code point (the full case mapping). *)
Definition lower_char (c : uchar) : ustr :=
  match c with
  | L1 a => [L1 (py_lower_char a)]
  | U0130 => [L1 "i"%char; U0307]
  | U0131 => [U0131]
  | U0307 => [U0307]
  end.

Definition lower (s : ustr) : ustr := flat_map lower_char s.

Fixpoint u_prefix (p s : ustr) : bool :=
  match p, s with
  | [], _ => true
  | a :: p', b :: s' => uchar_eqb a b && u_prefix p' s'
  | _ :: _, [] => false
  end.

(** [needle in hay] *)
Fixpoint u_in (needle hay : ustr) : bool :=
  match hay with
  | [] => match needle with [] => true | _ => false end
  | _ :: r => u_prefix needle hay || u_in needle r
  end.

(** The simple lower-case mapping the regular-expression engine applies to
    a text character under [re.IGNORECASE] ([sre_lower_unicode]). *)
Definition sre_lower (c : uchar) : uchar :=
  match c with
  | L1 a => L1 (py_lower_char a)
  | U0130 => L1 "i"%char
  | c => c
  end.

(** The characters [sre_compile] adds to a lower-case pattern letter under
    [re.IGNORECASE] (its [_ignorecase_fixes]); among the code points here,
    only "i" has one: the dotless ı. *)
Definition ignorecase_fixes (lo : ascii) : list uchar :=
  if Ascii.eqb lo "i"%char then [U0131] else [].

(** A pattern letter [p] under [re.IGNORECASE] matches the text character
    [c] when the lower-case form of [c] is [p] lowered or one of its fixes. *)
Definition ci_char (p : ascii) (c : uchar) : bool :=
  uchar_eqb (sre_lower c) (L1 (py_lower_char p))
  || existsb (uchar_eqb (sre_lower c)) (ignorecase_fixes (py_lower_char p)).

(** The literal [p] matched at the start of [s] under [re.IGNORECASE]. *)
Fixpoint starts_ci (p : string) (s : ustr) : bool :=
  match p, s with
  | EmptyString, _ => true
  | String a p', c :: s' => ci_char a c && starts_ci p' s'
  | String _ _, [] => false
  end.

(** [s] cut before its first newline. *)
Fixpoint break_nl (s : ustr) : ustr * ustr :=
  match s with
  | [] => ([], [])
  | c :: r =>
      if uchar_eqb c (L1 nl) then ([], s)
      else let (a, b) := break_nl r in (c :: a, b)
  end.

(** The scan of [re.findall(kw + ".*", s, re.IGNORECASE)]: [.] matches
    every character but the newline. *)
Fixpoint findall_scan (fuel : nat) (kw : string) (s : ustr) : list ustr :=
  match fuel with
  | O => []
  | S f =>
      match s with
      | [] => []
      | _ :: r =>
          if starts_ci kw s
          then let (m, rest) := break_nl s in m :: findall_scan f kw rest
          else findall_scan f kw r
      end
  end.

Definition findall_ci (kw : string) (s : ustr) : list ustr :=
  findall_scan (S (length s)) kw s.

(** ["\n".join(issues)] *)
Fixpoint join_nl (l : list ustr) : ustr :=
  match l with
  | [] => []
  | [x] => x
  | x :: xs => x ++ L1 nl :: join_nl xs
  end.

(** [analyze_logs(log_data)] *)
Definition analyze_logs (log_data : ustr) : ustr :=
  let errors := if u_in (to_u "error") (lower log_data) then findall_ci "error" log_data else [] in
  let warnings := if u_in (to_u "warning") (lower log_data) then findall_ci "warning" log_data else [] in
  match errors ++ warnings with
  | [] => to_u no_issues
  | issues => join_nl issues
  end.

(** "warnıng", a newline, "error"; and "WARNİNG". *)
Definition warn_dotless : ustr := to_u "warn" ++ [U0131] ++ to_u "ng" ++ [L1 nl] ++ to_u "error".

Definition warn_dotted : ustr := to_u "WARN" ++ [U0130] ++ to_u "NG".

End UText.

(** * Specification-side definitions *)

Module LangGraphSpec.
Import LangGraph.

(** What one tool call of [take_action] yields, when it yields. *)
Definition call_answer (ag : Agent) (t : ToolCall) (m : AnyMessage) : Prop :=
  (dict_get (tools ag) (tc_name t) = None /\
   m = ToolMessage (tc_id t) (tc_name t) bad_tool_result)
  \/ (exists tool v, dict_get (tools ag) (tc_name t) = Some tool /\
        tool_invoke tool (tc_args t) = Ok v /\
        m = ToolMessage (tc_id t) (tc_name t) (py_str v)).

(** The tool invocations [take_action] performs for the calls. *)
Definition invocations (ag : Agent) (calls : list ToolCall) : list event :=
  flat_map (fun t => match dict_get (tools ag) (tc_name t) with
                     | None => []
                     | Some _ => [EvTool (tc_name t) (tc_args t)]
                     end) calls.

(** A concrete agent with one search tool, and a call naming another tool. *)
Definition demo_agent : Agent :=
  make_agent (fun _ => Ok (mk_ai EmptyString []))
    [mk_tool "tavily_search_results_json" (fun a => Ok (VStr a))] EmptyString.

Definition demo_calls : list ToolCall :=
  [mk_call "web_search" "{'query': 'weather in sf'}" "call_1"]%string.





(** An agent whose model always asks for the search tool, and whose search
    tool fails. *)
Definition search_call : ToolCall := mk_call "tavily_search_results_json" "{'query': 'sf'}" "call_1".

Definition failing_search_agent : Agent :=
  make_agent (fun _ => Ok (mk_ai EmptyString [search_call]))
    [mk_tool "tavily_search_results_json"
       (fun _ => Raise (mk_exn "ConnectionError" "search service unreachable"))] EmptyString.


(** An agent with two tools, and a call naming the second one. *)
Definition two_tool_agent : Agent :=
  make_agent (fun _ => Ok (mk_ai EmptyString []))
    [mk_tool "tavily_search_results_json" (fun _ => Ok (VStr "from the search tool"));
     mk_tool "wikipedia" (fun _ => Ok (VStr "from the wikipedia tool"))] EmptyString.

Definition wikipedia_call : ToolCall := mk_call "wikipedia" "{'query': 'LangGraph'}" "call_2".

End LangGraphSpec.


Module ReActSpec.
Import ReAct.

(** The regular expression [^Action: (\w+): (.* )$] read as a language:
    the line is the literal text, a non-empty run of word characters (group
    1), the literal [": "], a text without newline (group 2), and then the
    end of the text or a final newline. *)
Definition action_re_spec (line g1 g2 : string) : Prop :=
  exists tail,
    line = "Action: " +s+ g1 +s+ ": " +s+ g2 +s+ tail /\
    g1 <> EmptyString /\ all_chars is_word_char g1 = true /\ no_nl g2 = true /\
    (tail = EmptyString \/ tail = nl_str).

Definition is_tool_event (ev : event) : bool :=
  match ev with EvTool _ _ => true | EvModel => false end.

(** The tool runs among the interactions. *)
Definition tool_events (evs : list event) : list event := filter is_tool_event evs.

(** The number of model calls among the interactions. *)
Definition model_calls (evs : list event) : nat :=
  length (filter (fun ev => negb (is_tool_event ev)) evs).

(** A caller that sends the messages [msgs] in turn to the same bot,
    going on after a call that raised. *)
Definition run_calls (client : Client) (b : Bot) (msgs : list string) : Bot :=
  fold_left (fun b m => fst (bot_call client b m)) msgs b.


(** A model reply with one action line between two other lines. *)
Definition demo_reply : string :=
  "Thought: I should look up the weight." +s+ nl_str +s+
  "Action: average_elephant_weight: Asian Elephant" +s+ nl_str +s+ "PAUSE".

Definition demo_client : Client := fun _ => Ok demo_reply.

(** A chat endpoint that cannot be reached. *)
Definition failing_client : Client :=
  fun _ => Raise (mk_exn "APIConnectionError" "Connection error.").

(** Python's [eval] is not needed by the examples. *)
Definition no_eval : string -> res pyval :=
  fun _ => Raise (mk_exn "NameError" "eval is not used here").

End ReActSpec.


Module NetworkSpec.
Import Network.

(** Whether [re.search(kw, s, re.IGNORECASE)] finds the keyword somewhere. *)
Fixpoint any_ci (kw s : string) : bool :=
  match s with
  | EmptyString => false
  | String _ r => starts_ci kw s || any_ci kw r
  end.

(** The keyword is written in lower case and has no newline. *)
Definition plain_keyword (kw : string) : bool :=
  all_chars (fun k => Ascii.eqb (py_lower_char k) k && negb (Ascii.eqb k nl)) kw
  && negb (String.eqb kw EmptyString).




End NetworkSpec.


(** ** Comparing the two agent loops

    A scripted model: its [k]-th answer requests the tool calls [nth k rs []]
    (name and argument), whatever the conversation.  The LangGraph model
    answers with an [AIMessage] carrying these calls; the chat endpoint of
    the ReAct loop answers with one [Action:] line per call, or with a final
    answer when there is none. *)
Module CompareSpec.
Import LangGraph ReAct.


















End CompareSpec.

(** ** [execute_cisco_command] with its Netmiko calls recorded *)
Module NetworkIO.
Import Network.

(** The calls [execute_cisco_command] makes on the Netmiko session. *)
Inductive net_call :=
| CallConnect (d : Device)
| CallSend (command : string)
| CallDisconnect.

(** [except Exception as e: return f"Error: {e}"] *)
Definition catch_exception (e : exn) : res string :=
  if is_Exception e then Ok ("Error: " +s+ exn_msg e) else Raise e.

(** [execute_cisco_command(command)], listing the calls made: the [try]
    body stops at the first call that raises. *)
Definition execute_cisco_command_io {Conn} (nm : Netmiko Conn) (command : string)
    : list net_call * res string :=
  match ConnectHandler nm device with
  | Raise e => ([CallConnect device], catch_exception e)
  | Ok connection =>
      match send_command nm connection command with
      | Raise e => ([CallConnect device; CallSend command], catch_exception e)
      | Ok output =>
          match disconnect nm connection with
          | Raise e => ([CallConnect device; CallSend command; CallDisconnect], catch_exception e)
          | Ok _ => ([CallConnect device; CallSend command; CallDisconnect], Ok output)
          end
      end
  end.

End NetworkIO.

(** ** The RAG notebook: PDF extraction and the retrieval graph *)
Module Pdf.

(** PyMuPDF: [fitz.open(path)], the pages of a document in order, and
    [page.get_text("text")]; opening and reading may raise. *)
Record Fitz (Doc Page : Type) := mk_fitz {
  fitz_open : string -> res Doc;
  doc_pages : Doc -> list Page;
  get_text : Page -> res string
}.
Arguments fitz_open {Doc Page} f.
Arguments doc_pages {Doc Page} f.
Arguments get_text {Doc Page} f.

(** [[page.get_text("text") for page in doc]] *)
Fixpoint page_texts {Doc Page} (fz : Fitz Doc Page) (pages : list Page) : res (list string) :=
  match pages with
  | [] => Ok []
  | page :: rest =>
      res_bind (get_text fz page) (fun t =>
      res_bind (page_texts fz rest) (fun ts => Ok (t :: ts)))
  end.

(** The [for pdf_path in pdf_paths] loop of [extract_text_from_pdfs], with
    [all_text] threaded through it. *)
Fixpoint extract_loop {Doc Page} (fz : Fitz Doc Page) (pdf_paths : list string)
    (all_text : list string) : res (list string) :=
  match pdf_paths with
  | [] => Ok all_text
  | pdf_path :: rest =>
      res_bind (fitz_open fz pdf_path) (fun doc =>
      res_bind (page_texts fz (doc_pages fz doc)) (fun texts =>
      let text := String.concat nl_str texts in
      extract_loop fz rest (all_text ++ [text])))
  end.

(** [extract_text_from_pdfs(pdf_paths)] *)
Definition extract_text_from_pdfs {Doc Page} (fz : Fitz Doc Page) (pdf_paths : list string)
    : res (list string) :=
  extract_loop fz pdf_paths [].

End Pdf.

Module RAG.

(** A LangChain [Document]: only [page_content] is used. *)
Record Document := mk_document { page_content : string }.

(** [RAGState] *)
Record RAGState := mk_rag_state {
  query : string;
  documents : list Document;
  response : string
}.

(** [retrieve_documents(state)]; [vectorstore.similarity_search] is the
    argument. *)
Definition retrieve_documents (similarity_search : string -> res (list Document))
    (state : RAGState) : res RAGState :=
  res_bind (similarity_search (query state)) (fun docs =>
  Ok (mk_rag_state (query state) docs EmptyString)).

(** [generate_answer(state)]; [llm.invoke] is the argument. *)
Definition generate_answer (llm_invoke : string -> res string) (state : RAGState)
    : res RAGState :=
  let context := String.concat nl_str (map page_content (documents state)) in
  let prompt := "Based on the following context, answer the question:" +s+ nl_str +s+ nl_str
                +s+ context +s+ nl_str +s+ nl_str +s+ "Question: " +s+ query state in
  res_bind (llm_invoke prompt) (fun answer =>
  Ok (mk_rag_state (query state) (documents state) answer)).

(** [app.invoke(state)]: the entry node [retrieval], then [generation],
    which has no outgoing edge, so the run ends there.  Each node returns
    every key of [RAGState], and the returned values replace the state. *)
Definition app_invoke (similarity_search : string -> res (list Document))
    (llm_invoke : string -> res string) (state : RAGState) : res RAGState :=
  res_bind (retrieve_documents similarity_search state) (generate_answer llm_invoke).

End RAG.

(** ** Vocabulary for the further properties *)
Module MoreSpec.
Import LangGraph ReAct Network.

(** Messages the caller of the graph supplies: the run never adds one. *)
Definition is_input_msg (m : AnyMessage) : bool :=
  match m with SystemMessage _ | HumanMessage _ => true | _ => false end.

(** The [tool_call_id] and [name] of a [ToolMessage]. *)
Definition answer_key (m : AnyMessage) : option (string * string) :=
  match m with ToolMessage id name _ => Some (id, name) | _ => None end.

Definition call_key (t : ToolCall) : option (string * string) := Some (tc_id t, tc_name t).

(** The message list [call_openai] passes to the model. *)
Definition model_input (ag : Agent) (st : list AnyMessage) : list AnyMessage :=
  if String.eqb (system ag) EmptyString then st else SystemMessage (system ag) :: st.

Definition is_user (m : ChatMsg) : bool := String.eqb (role m) "user".

(** Whether an input line ends the [__main__] loop. *)
Definition is_exit (user_input : string) : bool :=
  existsb (String.eqb (py_lower user_input)) ["exit"; "quit"]%string.

(** The line the [__main__] loop prints for an input. *)
Definition response_line (agent_run : string -> res string) (user_input : string) : string :=
  match agent_run user_input with
  | Ok response => "Response:" +s+ nl_str +s+ response
  | Raise e => "Error: " +s+ exn_msg e
  end.

Definition unknown_species : string := "Unknown elephant species".

(** The text [extract_text_from_pdfs] makes of one PDF: its pages' texts
    joined by newlines. *)
Definition read_pdf {Doc Page} (fz : Pdf.Fitz Doc Page) (pdf_path : string) : res string :=
  res_bind (Pdf.fitz_open fz pdf_path) (fun doc =>
  res_bind (Pdf.page_texts fz (Pdf.doc_pages fz doc)) (fun texts =>
  Ok (String.concat nl_str texts))).

(** A session that connects, then times out on [send_command]. *)
Definition flaky_session : Netmiko unit :=
  mk_netmiko unit (fun _ => Ok tt)
    (fun _ _ => Raise (mk_exn "ReadTimeout" "Pattern not detected")) (fun _ => Ok tt).

(** A file system with two-page PDFs, where "missing.pdf" does not exist;
    a document is its list of page texts. *)
Definition demo_fitz : Pdf.Fitz (list string) string :=
  Pdf.mk_fitz (list string) string
    (fun path => if String.eqb path "missing.pdf"
                 then Raise (mk_exn "FileNotFoundError" "no such file: 'missing.pdf'")
                 else Ok ["page one"; "page two"]%string)
    (fun doc => doc) (fun page => Ok page).

(** A similarity search returning one chunk, and an LLM with a fixed
    answer. *)
Definition demo_search : string -> res (list RAG.Document) :=
  fun q => Ok [RAG.mk_document ("SRv6 uses " +s+ q)].

Definition demo_llm : string -> res string := fun prompt_ => Ok "an answer"%string.

(** The f-string prompt of [generate_answer] for a query and its documents. *)
Definition rag_prompt (q : string) (docs : list RAG.Document) : string :=
  "Based on the following context, answer the question:" +s+ nl_str +s+ nl_str
  +s+ String.concat nl_str (map RAG.page_content docs) +s+ nl_str +s+ nl_str
  +s+ "Question: " +s+ q.

(** An agent whose model asks for the search tool once, then answers. *)
Definition search_once_agent : LangGraph.Agent :=
  make_agent (fun hist => if Nat.leb (length hist) 1
                          then Ok (mk_ai EmptyString [LangGraphSpec.search_call])
                          else Ok (mk_ai EmptyString []))
    [mk_tool "tavily_search_results_json" (fun _ => Ok (VStr "sunny"))] EmptyString.


(** The bound: no more matches than lines, none in an empty text. *)
Definition line_bound (s : string) : nat :=
  match s with EmptyString => 0 | _ => length (split_nl s) end.

End MoreSpec.

(** * Properties *)

Lemma bind_Ok {A B} (l : list event) (a : A) (k : A -> Eff B) :
  bind (l, Ok a) k = (l ++ fst (k a), snd (k a)).
Proof. unfold bind. destruct (k a); reflexivity. Qed.

Lemma bind_Raise {A B} (l : list event) (e : exn) (k : A -> Eff B) :
  bind (l, Raise e) k = (l, Raise e).
Proof. reflexivity. Qed.

Ltac eff_simpl :=
  repeat (unfold ret, raise, emit, lift in *;
          rewrite ?bind_Ok, ?bind_Raise in *; simpl in *).

Module LangGraphFacts.
Import LangGraph LangGraphSpec.

Lemma take_action_calls ag st calls :
  last_tool_calls st = Ok calls -> take_action ag st = run_tool_calls ag calls.
Proof.
  intros H. unfold take_action. rewrite H. eff_simpl.
  destruct (run_tool_calls ag calls); reflexivity.
Qed.

Lemma run_tool_calls_ok ag calls ev ms :
  run_tool_calls ag calls = (ev, Ok ms) ->
  Forall2 (call_answer ag) calls ms /\ ev = invocations ag calls.
Proof.
  revert ev ms. induction calls as [|t ts IH]; intros ev ms H; simpl in H.
  - inversion H; subst. split; [constructor | reflexivity].
  - unfold run_tool_call in H. unfold invocations. simpl. fold (invocations ag ts).
    destruct (dict_get (tools ag) (tc_name t)) as [tool|] eqn:Hd.
    + destruct (tool_invoke tool (tc_args t)) as [v|e] eqn:Hi; eff_simpl;
        [| discriminate H].
      destruct (run_tool_calls ag ts) as [ev' [ms'|e']] eqn:Hr; eff_simpl;
        inversion H; subst.
      destruct (IH _ _ eq_refl) as [HF Hev]. split.
      * constructor; [right; exists tool, v; auto | exact HF].
      * subst. rewrite ?app_nil_r. reflexivity.
    + destruct (run_tool_calls ag ts) as [ev' [ms'|e']] eqn:Hr; eff_simpl;
        inversion H; subst.
      destruct (IH _ _ eq_refl) as [HF Hev]. split.
      * constructor; [left; auto | exact HF].
      * subst. rewrite ?app_nil_r. reflexivity.
Qed.

Lemma run_tool_calls_raise ag calls ev e :
  run_tool_calls ag calls = (ev, Raise e) ->
  exists t tool, In t calls /\ dict_get (tools ag) (tc_name t) = Some tool /\
                 tool_invoke tool (tc_args t) = Raise e.
Proof.
  revert ev. induction calls as [|t ts IH]; intros ev H; simpl in H.
  - discriminate H.
  - unfold run_tool_call in H.
    destruct (dict_get (tools ag) (tc_name t)) as [tool|] eqn:Hd.
    + destruct (tool_invoke tool (tc_args t)) as [v|e0] eqn:Hi; eff_simpl.
      * destruct (run_tool_calls ag ts) as [ev' [ms'|e']] eqn:Hr; eff_simpl;
          inversion H; subst.
        destruct (IH _ eq_refl) as (t' & tool' & Hin & Hd' & Hi').
        exists t', tool'. auto.
      * inversion H; subst. exists t, tool. auto.
    + destruct (run_tool_calls ag ts) as [ev' [ms'|e']] eqn:Hr; eff_simpl;
        inversion H; subst.
      destruct (IH _ eq_refl) as (t' & tool' & Hin & Hd' & Hi').
      exists t', tool'. auto.
Qed.

Lemma run_tool_calls_bad ag calls :
  Forall (fun t => dict_get (tools ag) (tc_name t) = None) calls ->
  run_tool_calls ag calls =
    ([], Ok (map (fun t => ToolMessage (tc_id t) (tc_name t) bad_tool_result) calls)).
Proof.
  induction 1 as [|t ts Ht _ IH]; simpl; [reflexivity|].
  unfold run_tool_call. rewrite Ht. eff_simpl. rewrite IH. reflexivity.
Qed.

(** Claim C1: in [take_action], a tool call whose name is not a key of
    [self.tools] raises nothing and yields the [ToolMessage]
    "bad tool name, retry"; a call whose name is a key invokes that tool with
    the call's [args] and yields [str] of its result.  An exception of
    [take_action] can only come from such an invocation. *)
Theorem take_action_bad_tool_retry (ag : Agent) (st : list AnyMessage)
    (calls : list ToolCall) (Hcalls : last_tool_calls st = Ok calls) :
  (Forall (fun t => dict_get (tools ag) (tc_name t) = None) calls ->
   take_action ag st =
     ([], Ok (map (fun t => ToolMessage (tc_id t) (tc_name t) bad_tool_result) calls)))
  /\ (forall ev ms, take_action ag st = (ev, Ok ms) ->
        Forall2 (call_answer ag) calls ms /\ ev = invocations ag calls)
  /\ (forall ev e, take_action ag st = (ev, Raise e) ->
        exists t tool, In t calls /\ dict_get (tools ag) (tc_name t) = Some tool /\
                       tool_invoke tool (tc_args t) = Raise e).
Proof.
  rewrite (take_action_calls ag st calls Hcalls).
  split; [apply run_tool_calls_bad|].
  split; [apply run_tool_calls_ok | apply run_tool_calls_raise].
Qed.

Lemma take_action_bad_tool_retry_witness :
  last_tool_calls [AIMsg (mk_ai EmptyString demo_calls)] = Ok demo_calls /\
  take_action demo_agent [AIMsg (mk_ai EmptyString demo_calls)] =
    ([], Ok [ToolMessage "call_1"%string "web_search"%string bad_tool_result]).
Proof.
  split; [reflexivity|].
  apply (proj1 (take_action_bad_tool_retry demo_agent
                  [AIMsg (mk_ai EmptyString demo_calls)] demo_calls eq_refl)).
  apply Forall_cons; [reflexivity | constructor].
Defined.

Lemma last_elem_snoc {A} (xs : list A) (x : A) : last_elem (xs ++ [x]) = Ok x.
Proof. unfold last_elem. rewrite rev_app_distr. reflexivity. Qed.

Lemma call_openai_ok ag st ev upd :
  call_openai ag st = (ev, Ok upd) -> ev = [EvModel] /\ exists msg, upd = [AIMsg msg].
Proof.
  unfold call_openai. eff_simpl.
  destruct (model ag _) as [msg|e]; eff_simpl; intros H; inversion H; subst; eauto.
Qed.

Lemma exists_action_llm st msg :
  exists_action (st ++ [AIMsg msg]) = Ok (0 <? length (tool_calls msg)).
Proof. unfold exists_action, last_tool_calls. rewrite last_elem_snoc. reflexivity. Qed.

Ltac run_cases ag n st :=
  simpl; destruct (node_fn ag n st) as [ev [upd|e]] eqn:Hn.







End LangGraphFacts.

Module StringFacts.

Lemma strip_prefix_app p s : strip_prefix p (p +s+ s) = Some s.
Proof. induction p as [|c p IH]; simpl; [reflexivity|]. rewrite Ascii.eqb_refl. exact IH. Qed.

Lemma strip_prefix_inv p s r : strip_prefix p s = Some r -> s = p +s+ r.
Proof.
  revert s. induction p as [|c p IH]; intros s H; simpl in *.
  - congruence.
  - destruct s as [|c' s]; [discriminate H|].
    destruct (Ascii.eqb c c') eqn:E; [|discriminate H].
    apply Ascii.eqb_eq in E. subst. f_equal. apply IH, H.
Qed.

Definition head_not (p : ascii -> bool) (s : string) : Prop :=
  match s with EmptyString => True | String c _ => p c = false end.

Lemma span_inv p s a b :
  span p s = (a, b) -> s = a +s+ b /\ all_chars p a = true /\ head_not p b.
Proof.
  revert a b. induction s as [|c s IH]; intros a b H; simpl in H.
  - inversion H; subst. simpl. auto.
  - destruct (p c) eqn:Hp.
    + destruct (span p s) as [a' b'] eqn:Hs. inversion H; subst.
      destruct (IH _ _ eq_refl) as (-> & Ha & Hb). simpl. rewrite Hp. auto.
    + inversion H; subst. simpl. auto.
Qed.

Lemma span_app p a b :
  all_chars p a = true -> head_not p b -> span p (a +s+ b) = (a, b).
Proof.
  induction a as [|c a IH]; intros Ha Hb; simpl in *.
  - destruct b as [|c b]; simpl in *; [reflexivity|]. rewrite Hb. reflexivity.
  - apply andb_prop in Ha. destruct Ha as [Hc Ha]. rewrite Hc, (IH Ha Hb). reflexivity.
Qed.

Definition head_nl (s : string) : Prop :=
  match s with EmptyString => True | String c _ => c = nl end.

Lemma break_nl_inv s a b :
  break_nl s = (a, b) -> s = a +s+ b /\ no_nl a = true /\ head_nl b.
Proof.
  revert a b. induction s as [|c s IH]; intros a b H; simpl in H.
  - inversion H; subst. simpl. auto.
  - destruct (Ascii.eqb c nl) eqn:Hc.
    + inversion H; subst. simpl. apply Ascii.eqb_eq in Hc. auto.
    + destruct (break_nl s) as [a' b'] eqn:Hs. inversion H; subst.
      destruct (IH _ _ eq_refl) as (-> & Ha & Hb). unfold no_nl in *. simpl.
      rewrite Hc. auto.
Qed.

Lemma break_nl_app a b : no_nl a = true -> head_nl b -> break_nl (a +s+ b) = (a, b).
Proof.
  induction a as [|c a IH]; intros Ha Hb; unfold no_nl in *; simpl in *.
  - destruct b as [|c b]; simpl in *; [reflexivity|]. subst. reflexivity.
  - apply andb_prop in Ha. destruct Ha as [Hc Ha].
    destruct (Ascii.eqb c nl); [discriminate Hc|]. rewrite (IH Ha Hb). reflexivity.
Qed.

Lemma first_some_spec {A B} (f : A -> option B) xs y :
  ReAct.first_some f xs = Some y <->
  exists pre x post, xs = pre ++ x :: post /\ Forall (fun z => f z = None) pre /\ f x = Some y.
Proof.
  induction xs as [|x xs IH]; simpl.
  - split; [discriminate|]. intros (pre & x & post & H & _). destruct pre; discriminate H.
  - destruct (f x) as [y'|] eqn:Hx.
    + split.
      * intros H. inversion H; subst. exists [], x, xs. auto.
      * intros (pre & x' & post & H & HF & Hx'). destruct pre as [|z pre]; simpl in H.
        -- inversion H; subst. congruence.
        -- inversion H; subst. inversion HF; congruence.
    + rewrite IH. split.
      * intros (pre & x' & post & H & HF & Hx'). exists (x :: pre), x', post.
        subst. auto.
      * intros (pre & x' & post & H & HF & Hx'). destruct pre as [|z pre]; simpl in H.
        -- inversion H; subst. congruence.
        -- inversion H; subst. inversion HF; subst. exists pre, x', post. auto.
Qed.

End StringFacts.

Module ReActFacts.
Import ReAct ReActSpec StringFacts.

Lemma action_re_match_spec line g1 g2 :
  action_re_match line = Some (g1, g2) <-> action_re_spec line g1 g2.
Proof.
  unfold action_re_match, action_re_spec. split.
  - destruct (strip_prefix "Action: " line) as [rest|] eqn:H1; [|discriminate].
    destruct (span is_word_char rest) as [g1' rest2] eqn:H2.
    destruct (String.eqb g1' EmptyString) eqn:H3; [discriminate|].
    destruct (strip_prefix ": " rest2) as [rest3|] eqn:H4; [|discriminate].
    destruct (break_nl rest3) as [g2' tail] eqn:H5.
    destruct (String.eqb tail EmptyString || String.eqb tail nl_str) eqn:H6; [|discriminate].
    intros H; inversion H; subst g1' g2'.
    apply strip_prefix_inv in H1. apply span_inv in H2. destruct H2 as (-> & Hw & _).
    apply strip_prefix_inv in H4. apply break_nl_inv in H5. destruct H5 as (-> & Hn & _).
    exists tail. subst. repeat split; auto.
    + intros E. subst. discriminate H3.
    + apply orb_prop in H6. destruct H6 as [E|E]; apply String.eqb_eq in E; auto.
  - intros (tail & -> & Hne & Hw & Hn & Ht).
    rewrite strip_prefix_app.
    rewrite (span_app is_word_char g1 (": " +s+ g2 +s+ tail) Hw eq_refl).
    destruct (String.eqb g1 EmptyString) eqn:E; [apply String.eqb_eq in E; contradiction|].
    rewrite strip_prefix_app.
    rewrite break_nl_app by (auto; destruct Ht; subst; reflexivity).
    destruct Ht; subst; reflexivity.
Qed.

Lemma first_action_spec result a inp :
  first_action result = Some (a, inp) <->
  exists pre line post, split_nl result = pre ++ line :: post /\
    Forall (fun l => action_re_match l = None) pre /\ action_re_match line = Some (a, inp).
Proof. unfold first_action. apply first_some_spec. Qed.

(** [turn] case by case. *)
Lemma turn_eq client known b p :
  turn client known b p =
  (fst (bot_call client b p),
   match snd (bot_call client b p) with
   | Raise e => ([EvModel], Raise e)
   | Ok result =>
       match first_action result with
       | None => ([EvModel], Ok None)
       | Some (action, action_input) =>
           match dict_get known action with
           | None => ([EvModel], Raise (Exception (unknown_action_msg action action_input)))
           | Some f =>
               match f action_input with
               | Ok obs => ([EvModel; EvTool action action_input],
                            Ok (Some ("Observation: " +s+ py_str obs)))
               | Raise e => ([EvModel; EvTool action action_input], Raise e)
               end
           end
       end
   end).
Proof.
  unfold turn. destruct (bot_call client b p) as [b1 [result|e]]; eff_simpl; [|reflexivity].
  destruct (first_action result) as [[action action_input]|]; eff_simpl; [|reflexivity].
  destruct (dict_get known action) as [f|]; eff_simpl; [|reflexivity].
  destruct (f action_input); reflexivity.
Qed.

Lemma bot_call_eq client b message :
  bot_call client b message =
  ({| bot_system := bot_system b;
      messages := messages b ++ [mk_msg "user" message] ++
                  match client (messages b ++ [mk_msg "user" message]) with
                  | Ok result => [mk_msg "assistant" result]
                  | Raise _ => []
                  end |},
   client (messages b ++ [mk_msg "user" message])).
Proof.
  unfold bot_call. simpl.
  destruct (client (messages b ++ [mk_msg "user" message])); simpl;
    rewrite ?app_nil_r, <- ?app_assoc; reflexivity.
Qed.

Lemma model_calls_app l1 l2 : model_calls (l1 ++ l2) = model_calls l1 + model_calls l2.
Proof. unfold model_calls. rewrite filter_app, length_app. reflexivity. Qed.

Lemma query_loop_model_calls client known n b p :
  model_calls (fst (query_loop client known n b p)) <= n.
Proof.
  revert b p. induction n as [|n IH]; intros b p; [cbn; lia|].
  simpl. rewrite turn_eq.
  destruct (snd (bot_call client b p)) as [result|e]; eff_simpl; [|cbn; lia].
  destruct (first_action result) as [[action action_input]|]; eff_simpl; [|cbn; lia].
  destruct (dict_get known action) as [f|]; eff_simpl; [|cbn; lia].
  destruct (f action_input) as [obs|e]; eff_simpl; [|cbn; lia].
  pose proof (IH (fst (bot_call client b p)) ("Observation: " +s+ py_str obs)) as H.
  simpl in H. unfold model_calls in *. simpl in *. lia.
Qed.

(** Claim C4: [query] makes at most [max_turns] model calls (one per
    iteration of its [while] loop; none when [max_turns] is not positive);
    [max_turns] defaults to 5; an iteration whose model response has no
    line matching [action_re] ends the loop at once, with no action run. *)
Theorem query_turn_bound :
  (forall client py_eval question max_turns,
      model_calls (fst (query client py_eval question max_turns)) <= Z.to_nat max_turns)
  /\ (forall client py_eval question,
        query_default client py_eval question = query client py_eval question 5)
  /\ (forall client known n b p result,
        client (messages b ++ [mk_msg "user" p]) = Ok result ->
        first_action result = None ->
        query_loop client known (S n) b p = ([EvModel], Ok tt)).
Proof.
  split; [intros; apply query_loop_model_calls|].
  split; [reflexivity|].
  intros client known n b p result Hc Hn. simpl.
  rewrite turn_eq, bot_call_eq. simpl. rewrite Hc, Hn. reflexivity.
Qed.

(** Claim C5: a line is an action exactly when it matches
    [^Action: (\w+): (.* )$], whose groups are the action name and its
    input; [first_action] takes the first matching line of the response;
    a turn runs the action of that line and no other. *)
Theorem action_line_first_match :
  (forall line g1 g2, action_re_match line = Some (g1, g2) <-> action_re_spec line g1 g2)
  /\ (forall result a inp,
        first_action result = Some (a, inp) <->
        exists pre line post, split_nl result = pre ++ line :: post /\
          Forall (fun l => action_re_match l = None) pre /\ action_re_match line = Some (a, inp))
  /\ (forall client known b p result,
        client (messages b ++ [mk_msg "user" p]) = Ok result ->
        tool_events (fst (snd (turn client known b p))) =
          match first_action result with
          | Some (a, inp) => if dict_in a known then [EvTool a inp] else []
          | None => []
          end).
Proof.
  split; [apply action_re_match_spec|].
  split; [apply first_action_spec|].
  intros client known b p result Hc.
  rewrite turn_eq, bot_call_eq. simpl. rewrite Hc.
  destruct (first_action result) as [[a inp]|]; [|reflexivity].
  unfold dict_in. destruct (dict_get known a) as [f|]; [|reflexivity].
  destruct (f inp); reflexivity.
Qed.

(** Claim C6: when the parsed action is not a key of the dictionary, the
    loop raises [Exception("Unknown action: <action>: <action_input>")];
    when it is, the mapped function is applied to the input and the next
    prompt sent to the model is ["Observation: <observation>"]. *)
Theorem unknown_action_raises client known b p result action action_input
    (Hc : client (messages b ++ [mk_msg "user" p]) = Ok result)
    (Ha : first_action result = Some (action, action_input)) :
  (dict_get known action = None -> forall n,
     query_loop client known (S n) b p =
       ([EvModel], Raise (Exception ("Unknown action: " +s+ action +s+ ": " +s+ action_input))))
  /\ (forall f obs n, dict_get known action = Some f -> f action_input = Ok obs ->
        query_loop client known (S n) b p =
          (let (ev, r) := query_loop client known n (fst (bot_call client b p))
                            ("Observation: " +s+ py_str obs) in
           (EvModel :: EvTool action action_input :: ev, r))).
Proof.
  split.
  - intros Hk n. cbn [query_loop]. rewrite turn_eq.
    replace (snd (bot_call client b p)) with (Ok result : res string)
      by (rewrite bot_call_eq; simpl; symmetry; exact Hc).
    rewrite Ha, Hk. reflexivity.
  - intros f obs n Hk Hf. cbn [query_loop]. rewrite turn_eq.
    replace (snd (bot_call client b p)) with (Ok result : res string)
      by (rewrite bot_call_eq; simpl; symmetry; exact Hc).
    rewrite Ha, Hk, Hf.
    eff_simpl. destruct (query_loop _ _ _ _ _); reflexivity.
Qed.

(** Claim C10, as amended: a call first appends the [user] entry; when the
    model request returns, it appends the [assistant] entry with the reply
    and returns it; when the request raises, only the [user] entry has been
    added and the exception propagates.  Existing entries are never changed,
    so the [system] entry stays first after any sequence of calls. *)
Theorem bot_call_appends :
  (forall client b message,
      messages (fst (bot_call client b message)) =
        messages b ++ [mk_msg "user" message] ++
        match snd (bot_call client b message) with
        | Ok result => [mk_msg "assistant" result]
        | Raise _ => []
        end
      /\ snd (bot_call client b message) = client (messages b ++ [mk_msg "user" message]))
  /\ (forall client b msgs, exists added, messages (run_calls client b msgs) = messages b ++ added)
  /\ (forall client system msgs, system <> EmptyString ->
        hd_error (messages (run_calls client (init_bot system) msgs)) = Some (mk_msg "system" system)).
Proof.
  assert (Hpre : forall client b msgs, exists added,
             messages (run_calls client b msgs) = messages b ++ added).
  { intros client b msgs. unfold run_calls. revert b.
    induction msgs as [|m msgs IH]; intros b; simpl.
    - exists []. rewrite app_nil_r. reflexivity.
    - destruct (IH (fst (bot_call client b m))) as [added Ha]. rewrite Ha, bot_call_eq.
      simpl. eexists. rewrite <- app_assoc. reflexivity. }
  split; [|split; [exact Hpre|]].
  - intros client b message. rewrite bot_call_eq. simpl. auto.
  - intros client system msgs Hs. destruct (Hpre client (init_bot system) msgs) as [added Ha].
    rewrite Ha. unfold init_bot. simpl.
    destruct (String.eqb system EmptyString) eqn:E; [apply String.eqb_eq in E; contradiction|].
    reflexivity.
Qed.

Lemma unknown_action_raises_witness :
  demo_client (messages (init_bot prompt) ++ [mk_msg "user" "How much does an Asian elephant weigh?"]) = Ok demo_reply
  /\ first_action demo_reply = Some ("average_elephant_weight", "Asian Elephant")%string
  /\ query_loop demo_client (known_actions no_eval) 5 (init_bot prompt)
       "How much does an Asian elephant weigh?"
     = (let (ev, r) := query_loop demo_client (known_actions no_eval) 4
                         (fst (bot_call demo_client (init_bot prompt)
                                 "How much does an Asian elephant weigh?"))
                         ("Observation: " +s+ py_str (VStr "An Asian Elephant weighs 8,800 lbs")) in
        (EvModel :: EvTool "average_elephant_weight" "Asian Elephant" :: ev, r)).
Proof.
  split; [reflexivity|]. split; [vm_compute; reflexivity|].
  apply (proj2 (unknown_action_raises demo_client (known_actions no_eval) (init_bot prompt)
                  "How much does an Asian elephant weigh?" demo_reply
                  "average_elephant_weight" "Asian Elephant" eq_refl
                  ltac:(vm_compute; reflexivity))
                average_elephant_weight (VStr "An Asian Elephant weighs 8,800 lbs") 4);
    vm_compute; reflexivity.
Defined.

(** Claim C10 fails as stated: when the chat endpoint raises, the call has
    appended the [user] entry only. *)
Lemma bot_call_raise_appends_one :
  messages (fst (bot_call failing_client (init_bot prompt) "How much does a toy poodle weigh?"))
    = messages (init_bot prompt) ++ [mk_msg "user" "How much does a toy poodle weigh?"]
  /\ length (messages (fst (bot_call failing_client (init_bot prompt)
                               "How much does a toy poodle weigh?")))
     = length (messages (init_bot prompt)) + 1
  /\ snd (bot_call failing_client (init_bot prompt) "How much does a toy poodle weigh?")
     = Raise (mk_exn "APIConnectionError" "Connection error.").
Proof. vm_compute. auto. Qed.

End ReActFacts.

Module NetworkFacts.
Import Network NetworkSpec StringFacts.

Lemma sappend_assoc a b c : (a +s+ b) +s+ c = a +s+ (b +s+ c).
Proof. induction a as [|x a IH]; simpl; [reflexivity|]. rewrite IH. reflexivity. Qed.

Lemma lower_nl : py_lower_char nl = nl.
Proof. reflexivity. Qed.

Lemma starts_ci_lower kw s :
  all_chars (fun k => Ascii.eqb (py_lower_char k) k) kw = true ->
  starts_with kw (py_lower s) = starts_ci kw s.
Proof.
  unfold starts_with. revert s. induction kw as [|k kw IH]; intros s Hk; [reflexivity|].
  simpl in Hk. apply andb_prop in Hk. destruct Hk as [Hk Hkw]. apply Ascii.eqb_eq in Hk.
  destruct s as [|c s]; simpl; [reflexivity|].
  rewrite Hk. specialize (IH s Hkw).
  destruct (Ascii.eqb k (py_lower_char c)); simpl; [exact IH|].
  reflexivity.
Qed.

Lemma py_in_lower kw s :
  plain_keyword kw = true -> py_in kw (py_lower s) = any_ci kw s.
Proof.
  intros Hp. unfold plain_keyword in Hp. apply andb_prop in Hp. destruct Hp as [Hk Hne].
  assert (Hl : all_chars (fun k => Ascii.eqb (py_lower_char k) k) kw = true).
  { clear Hne. induction kw as [|k kw IH]; simpl in *; [reflexivity|].
    apply andb_prop in Hk. destruct Hk as [Hk1 Hk2]. apply andb_prop in Hk1.
    destruct Hk1 as [-> _]. apply IH, Hk2. }
  induction s as [|c s IH]; simpl.
  - destruct kw; [discriminate Hne | reflexivity].
  - rewrite IH. f_equal. apply (starts_ci_lower kw (String c s) Hl).
Qed.

Lemma findall_scan_nil fuel kw s :
  String.length s < fuel -> (findall_scan fuel kw s = [] <-> any_ci kw s = false).
Proof.
  revert s. induction fuel as [|f IH]; intros s Hl; [lia|].
  destruct s as [|c r]; simpl; [tauto|].
  destruct (starts_ci kw (String c r)) eqn:Hs; simpl.
  - destruct (break_nl (String c r)) as [m rest] eqn:Hb. simpl in Hb. rewrite Hb. split; intros H; discriminate H.
  - simpl in Hl. apply IH. lia.
Qed.

Lemma starts_ci_in_line kw a b :
  plain_keyword kw = true -> no_nl a = true -> head_nl b ->
  starts_ci kw (a +s+ b) = true -> starts_ci kw a = true.
Proof.
  intros Hp. unfold plain_keyword in Hp. apply andb_prop in Hp. destruct Hp as [Hk _].
  revert a. induction kw as [|k kw IH]; intros a Ha Hb Hs; [reflexivity|].
  simpl in Hk. apply andb_prop in Hk. destruct Hk as [Hk1 Hk2].
  apply andb_prop in Hk1. destruct Hk1 as [Hlow Hnl]. apply Ascii.eqb_eq in Hlow.
  destruct a as [|c a]; simpl in *.
  - destruct b as [|c b]; [discriminate Hs|]. simpl in Hb. subst c.
    apply andb_prop in Hs. destruct Hs as [Hs _]. apply Ascii.eqb_eq in Hs.
    rewrite Hlow, lower_nl in Hs. subst k. discriminate Hnl.
  - unfold no_nl in Ha. simpl in Ha. apply andb_prop in Ha. destruct Ha as [_ Ha].
    apply andb_prop in Hs. destruct Hs as [Hc Hs]. rewrite Hc. simpl.
    apply (IH Hk2 a Ha Hb Hs).
Qed.

(** Each match of the scan is a piece of [s] that starts with the keyword,
    has no newline, and is followed by a newline or the end of [s]. *)
Lemma findall_scan_matches fuel kw s :
  plain_keyword kw = true ->
  Forall (fun m => exists pre post, s = pre +s+ m +s+ post /\ starts_ci kw m = true /\
                                    no_nl m = true /\ head_nl post)
         (findall_scan fuel kw s).
Proof.
  intros Hp. revert s. induction fuel as [|f IH]; intros s; simpl; [constructor|].
  destruct s as [|c r]; [constructor|].
  destruct (starts_ci kw (String c r)) eqn:Hs.
  - destruct (break_nl (String c r)) as [m rest] eqn:Hb.
    apply break_nl_inv in Hb. destruct Hb as (Heq & Hm & Hr).
    constructor.
    + exists EmptyString, rest. simpl. repeat split; auto.
      rewrite Heq in Hs. apply (starts_ci_in_line kw m rest Hp Hm Hr Hs).
    + rewrite Heq. eapply Forall_impl; [|apply IH].
      intros m' (pre & post & E & H1 & H2 & H3). exists (m +s+ pre), post.
      rewrite E, !sappend_assoc. auto.
  - eapply Forall_impl; [|apply IH].
    intros m' (pre & post & E & H1 & H2 & H3). exists (String c pre), post.
    rewrite E. auto.
Qed.

Lemma findall_gate kw s :
  plain_keyword kw = true ->
  (if py_in kw (py_lower s) then findall_ci kw s else []) = findall_ci kw s.
Proof.
  intros Hp. rewrite (py_in_lower kw s Hp).
  destruct (any_ci kw s) eqn:E; [reflexivity|].
  symmetry. apply (findall_scan_nil (S (String.length s)) kw s); [lia | exact E].
Qed.

Lemma analyze_logs_eq s :
  analyze_logs s =
  match findall_ci "error" s ++ findall_ci "warning" s with
  | [] => no_issues
  | issues => String.concat nl_str issues
  end.
Proof.
  unfold analyze_logs.
  rewrite (findall_gate "error" s eq_refl), (findall_gate "warning" s eq_refl).
  destruct (findall_ci "error" s ++ findall_ci "warning" s); reflexivity.
Qed.

Lemma findall_ci_nil kw s :
  plain_keyword kw = true -> (findall_ci kw s = [] <-> py_in kw (py_lower s) = false).
Proof.
  intros Hp. rewrite (py_in_lower kw s Hp). apply findall_scan_nil. lia.
Qed.

Lemma concat_not_no_issues kw m ms :
  (kw = "error"%string \/ kw = "warning"%string) ->
  starts_ci kw m = true -> String.concat nl_str (m :: ms) <> no_issues.
Proof.
  intros Hkw Hs. destruct m as [|c m]; [destruct Hkw; subst; discriminate Hs|].
  assert (Hc : String.concat nl_str (String c m :: ms) = String c
                 (match ms with [] => m | _ => m +s+ nl_str +s+ String.concat nl_str ms end)).
  { destruct ms; reflexivity. }
  rewrite Hc. unfold no_issues. intros E. inversion E; subst c.
  destruct Hkw; subst; discriminate Hs.
Qed.

(** [analyze_logs] on Latin-1 text returns "No issues found in the logs."
    exactly when the lower-cased log contains neither "error" nor "warning";
    otherwise it returns the matches of [error.*] followed by those of
    [warning.*], joined by newlines, each match being the rest of its line
    from the keyword on.  It is a total function: it never raises. *)
Theorem analyze_logs_spec (log_data : string) :
  (analyze_logs log_data = no_issues <->
     py_in "error" (py_lower log_data) = false /\ py_in "warning" (py_lower log_data) = false)
  /\ (py_in "error" (py_lower log_data) = true \/ py_in "warning" (py_lower log_data) = true ->
      analyze_logs log_data =
        String.concat nl_str (findall_ci "error" log_data ++ findall_ci "warning" log_data))
  /\ Forall (fun m => exists pre post, log_data = pre +s+ m +s+ post /\
               starts_ci "error" m = true /\ no_nl m = true /\ head_nl post)
            (findall_ci "error" log_data)
  /\ Forall (fun m => exists pre post, log_data = pre +s+ m +s+ post /\
               starts_ci "warning" m = true /\ no_nl m = true /\ head_nl post)
            (findall_ci "warning" log_data).
Proof.
  pose proof (findall_scan_matches (S (String.length log_data)) "error" log_data eq_refl) as Fe.
  pose proof (findall_scan_matches (S (String.length log_data)) "warning" log_data eq_refl) as Fw.
  pose proof (findall_ci_nil "error" log_data eq_refl) as Ne.
  pose proof (findall_ci_nil "warning" log_data eq_refl) as Nw.
  unfold findall_ci in *. rewrite analyze_logs_eq. unfold findall_ci.
  split; [|split; [|split; assumption]].
  - split.
    + destruct (findall_scan _ "error" log_data) as [|m ms] eqn:E1.
      * destruct (findall_scan _ "warning" log_data) as [|m' ms'] eqn:E2.
        -- intros _. split; [apply Ne | apply Nw]; reflexivity.
        -- intros E. inversion Fw as [|x xs (pre & post & _ & Hs & _) _]; subst.
           exfalso. exact (concat_not_no_issues "warning" m' ms' (or_intror eq_refl) Hs E).
      * intros E. inversion Fe as [|x xs (pre & post & _ & Hs & _) _]; subst.
        exfalso. exact (concat_not_no_issues "error" m _ (or_introl eq_refl) Hs E).
    + intros [H1 H2]. rewrite (proj2 Ne H1), (proj2 Nw H2). reflexivity.
  - intros H.
    destruct (findall_scan _ "error" log_data ++ findall_scan _ "warning" log_data) eqn:E;
      [|reflexivity].
    apply app_eq_nil in E. destruct E as [E1 E2].
    apply Ne in E1. apply Nw in E2. destruct H as [H|H]; congruence.
Qed.

End NetworkFacts.

(** ** [analyze_logs] beyond Latin-1 *)
Module UTextFacts.
Import Network.

Lemma to_u_app a b : UText.to_u (a +s+ b) = UText.to_u a ++ UText.to_u b.
Proof. induction a as [|c a IH]; simpl; [reflexivity|]. rewrite IH. reflexivity. Qed.

Lemma length_to_u s : length (UText.to_u s) = String.length s.
Proof. induction s as [|c s IH]; simpl; [reflexivity|]. rewrite IH. reflexivity. Qed.

Lemma lower_to_u s : UText.lower (UText.to_u s) = UText.to_u (py_lower s).
Proof.
  induction s as [|c s IH]; [reflexivity|].
  change (UText.L1 (py_lower_char c) :: UText.lower (UText.to_u s) = UText.L1 (py_lower_char c) :: UText.to_u (py_lower s)).
  rewrite IH. reflexivity.
Qed.

Lemma u_prefix_to_u p s : UText.u_prefix (UText.to_u p) (UText.to_u s) = starts_with p s.
Proof.
  unfold starts_with. revert s. induction p as [|a p IH]; intros s; [reflexivity|].
  destruct s as [|b s]; [reflexivity|]. simpl.
  destruct (Ascii.eqb a b); simpl; [apply IH | reflexivity].
Qed.

Lemma u_in_to_u n h : UText.u_in (UText.to_u n) (UText.to_u h) = py_in n h.
Proof.
  induction h as [|c h IH].
  - destruct n; reflexivity.
  - change (UText.u_prefix (UText.to_u n) (UText.to_u (String c h)) || UText.u_in (UText.to_u n) (UText.to_u h) =
            starts_with n (String c h) || py_in n h).
    rewrite u_prefix_to_u, IH. reflexivity.
Qed.

Lemma ascii_eqb_sym (a b : ascii) : Ascii.eqb a b = Ascii.eqb b a.
Proof.
  destruct (Ascii.eqb a b) eqn:E, (Ascii.eqb b a) eqn:E'; auto.
  - apply Ascii.eqb_eq in E. subst. rewrite Ascii.eqb_refl in E'. discriminate.
  - apply Ascii.eqb_eq in E'. subst. rewrite Ascii.eqb_refl in E. discriminate.
Qed.

(** On Latin-1 text, matching under [re.IGNORECASE] is equality of the
    lower-case forms. *)
Lemma ci_char_L1 a b : UText.ci_char a (UText.L1 b) = Ascii.eqb (py_lower_char a) (py_lower_char b).
Proof.
  unfold UText.ci_char, UText.ignorecase_fixes. simpl.
  destruct (Ascii.eqb (py_lower_char a) "i"%char); simpl;
    rewrite orb_false_r; apply ascii_eqb_sym.
Qed.

Lemma starts_ci_to_u kw s : UText.starts_ci kw (UText.to_u s) = Network.starts_ci kw s.
Proof.
  revert s. induction kw as [|a kw IH]; intros s; [reflexivity|].
  destruct s as [|b s]; [reflexivity|]. simpl. rewrite ci_char_L1, IH. reflexivity.
Qed.

Lemma break_nl_to_u s :
  UText.break_nl (UText.to_u s) = (UText.to_u (fst (break_nl s)), UText.to_u (snd (break_nl s))).
Proof.
  induction s as [|c s IH]; [reflexivity|]. simpl.
  destruct (Ascii.eqb c nl); [reflexivity|]. rewrite IH.
  destruct (break_nl s); reflexivity.
Qed.

Lemma findall_scan_to_u fuel kw s :
  UText.findall_scan fuel kw (UText.to_u s) = map UText.to_u (Network.findall_scan fuel kw s).
Proof.
  revert s. induction fuel as [|f IH]; intros s; [reflexivity|].
  destruct s as [|c s]; [reflexivity|].
  change (UText.findall_scan (S f) kw (UText.to_u (String c s))) with
    (if UText.starts_ci kw (UText.to_u (String c s))
     then let (m, rest) := UText.break_nl (UText.to_u (String c s)) in m :: UText.findall_scan f kw rest
     else UText.findall_scan f kw (UText.to_u s)).
  cbn [Network.findall_scan]. rewrite starts_ci_to_u, break_nl_to_u.
  destruct (Network.starts_ci kw (String c s)); [|apply IH].
  destruct (break_nl (String c s)) as [m rest]. simpl. rewrite IH. reflexivity.
Qed.

Lemma join_nl_to_u x l :
  UText.join_nl (UText.to_u x :: map UText.to_u l) = UText.to_u (String.concat nl_str (x :: l)).
Proof.
  revert x. induction l as [|y l IH]; intros x; [reflexivity|].
  change (UText.to_u x ++ UText.L1 nl :: UText.join_nl (UText.to_u y :: map UText.to_u l) =
          UText.to_u (x +s+ nl_str +s+ String.concat nl_str (y :: l))).
  rewrite IH, !to_u_app. reflexivity.
Qed.

Lemma issues_to_u (l : list string) :
  match map UText.to_u l with [] => UText.to_u no_issues | issues => UText.join_nl issues end
  = UText.to_u (match l with [] => no_issues | _ => String.concat nl_str l end).
Proof. destruct l as [|x l]; [reflexivity|]. apply join_nl_to_u. Qed.

(** On Latin-1 text, the model over the wider code points agrees with the
    Latin-1 model. *)
Lemma analyze_logs_to_u s : UText.analyze_logs (UText.to_u s) = UText.to_u (Network.analyze_logs s).
Proof.
  unfold UText.analyze_logs, Network.analyze_logs, UText.findall_ci, Network.findall_ci.
  rewrite lower_to_u, !u_in_to_u, length_to_u, !findall_scan_to_u.
  destruct (py_in "error" (py_lower s)), (py_in "warning" (py_lower s));
    rewrite ?app_nil_r, ?app_nil_l, <- ?map_app;
    first [apply issues_to_u | apply (issues_to_u [])].
Qed.

(** Claim C9, as amended: on log text of code points below 256,
    [analyze_logs] returns "No issues found in the logs." exactly when the
    lower-cased log contains neither "error" nor "warning"; otherwise it
    returns the matches of [error.*] followed by those of [warning.*],
    joined by newlines, each match being the rest of its line from the
    keyword (matched ignoring case) on.  It never raises. *)
Theorem analyze_logs_latin1 (log_data : string) :
  UText.analyze_logs (UText.to_u log_data) = UText.to_u (Network.analyze_logs log_data)
  /\ (Network.analyze_logs log_data = no_issues <->
        py_in "error" (py_lower log_data) = false /\ py_in "warning" (py_lower log_data) = false)
  /\ (py_in "error" (py_lower log_data) = true \/ py_in "warning" (py_lower log_data) = true ->
      Network.analyze_logs log_data =
        String.concat nl_str (Network.findall_ci "error" log_data ++
                              Network.findall_ci "warning" log_data))
  /\ Forall (fun m => exists pre post, log_data = pre +s+ m +s+ post /\
               Network.starts_ci "error" m = true /\ no_nl m = true /\ StringFacts.head_nl post)
            (Network.findall_ci "error" log_data)
  /\ Forall (fun m => exists pre post, log_data = pre +s+ m +s+ post /\
               Network.starts_ci "warning" m = true /\ no_nl m = true /\ StringFacts.head_nl post)
            (Network.findall_ci "warning" log_data).
Proof. split; [apply analyze_logs_to_u | apply NetworkFacts.analyze_logs_spec]. Qed.

(** Claim C9 fails beyond Latin-1: on "warnıng" and a line "error",
    [analyze_logs] reports only "error", although [re.findall(r"warning.*",
    ..., re.IGNORECASE)] matches "warnıng" ([str.lower()] keeps the dotless
    ı, so the "warning" test fails); on "WARNİNG" it reports no issue
    ([str.lower()] gives "warni" and a combining dot), although the
    regular expression matches the whole text. *)
Lemma analyze_logs_beyond_latin1 :
  UText.analyze_logs UText.warn_dotless = UText.to_u "error"
  /\ UText.findall_ci "warning" UText.warn_dotless = [UText.to_u "warn" ++ [UText.U0131] ++ UText.to_u "ng"]
  /\ UText.analyze_logs UText.warn_dotted = UText.to_u no_issues
  /\ UText.findall_ci "warning" UText.warn_dotted = [UText.warn_dotted]
  /\ UText.u_in (UText.to_u "warning") (UText.lower UText.warn_dotted) = false.
Proof. vm_compute. repeat split. Qed.

End UTextFacts.

(** ** Failure recovery and dispatch across the notebooks *)
Module Recovery.
Import Network NetworkSpec.





Lemma dict_get_set {V} (d : list (string * V)) k v k' :
  dict_get (dict_set d k v) k' = if String.eqb k' k then Some v else dict_get d k'.
Proof.
  induction d as [|[k0 v0] d IH]; simpl; [reflexivity|].
  destruct (String.eqb k k0) eqn:E.
  - apply String.eqb_eq in E. subst k0. simpl. destruct (String.eqb k' k); reflexivity.
  - simpl. rewrite IH. destruct (String.eqb k' k0) eqn:E'; [|reflexivity].
    apply String.eqb_eq in E'. subst k'. rewrite String.eqb_sym, E. reflexivity.
Qed.

Lemma find_app {A} (f : A -> bool) l1 l2 :
  find f (l1 ++ l2) = match find f l1 with Some x => Some x | None => find f l2 end.
Proof. induction l1 as [|x l1 IH]; simpl; [reflexivity|]. destruct (f x); auto. Qed.

Lemma tools_dict_get ts d name :
  dict_get (fold_left (fun d t => dict_set d (LangGraph.tool_name t) t) ts d) name =
  match find (fun t => String.eqb name (LangGraph.tool_name t)) (rev ts) with
  | Some t => Some t
  | None => dict_get d name
  end.
Proof.
  revert d. induction ts as [|t ts IH]; intros d; simpl; [reflexivity|].
  rewrite IH, find_app, dict_get_set. simpl.
  destruct (find _ (rev ts)); [reflexivity|].
  destruct (String.eqb name (LangGraph.tool_name t)); reflexivity.
Qed.

(** Claim C8 fails as stated: the repository's [take_action] picks the tool
    to run by its own lookup in [self.tools], and [query] picks the function
    by its own lookup in [known_actions]. *)
Lemma dispatch_by_repository_code :
  LangGraph.take_action LangGraphSpec.two_tool_agent
    [LangGraph.AIMsg (LangGraph.mk_ai EmptyString [LangGraphSpec.wikipedia_call])]
  = ([EvTool "wikipedia" "{'query': 'LangGraph'}"],
     Ok [LangGraph.ToolMessage "call_2" "wikipedia" "from the wikipedia tool"])%string
  /\ snd (ReAct.turn ReActSpec.demo_client (ReAct.known_actions ReActSpec.no_eval)
            (ReAct.init_bot ReAct.prompt) "How much does an Asian elephant weigh?")
  = ([EvModel; EvTool "average_elephant_weight" "Asian Elephant"],
     Ok (Some "Observation: An Asian Elephant weighs 8,800 lbs"))%string.
Proof. split; vm_compute; reflexivity. Qed.

(** [take_action] reads [self.tools] only at the names of the calls. *)
Lemma run_tool_calls_congr ag ag' calls :
  Forall (fun t => dict_get (LangGraph.tools ag') (LangGraph.tc_name t) =
                   dict_get (LangGraph.tools ag) (LangGraph.tc_name t)) calls ->
  LangGraph.run_tool_calls ag' calls = LangGraph.run_tool_calls ag calls.
Proof.
  induction 1 as [|t ts Ht _ IH]; [reflexivity|]. simpl.
  unfold LangGraph.run_tool_call. rewrite Ht, IH. reflexivity.
Qed.

(** When [take_action] raises, the calls before the failing one all
    returned, the failing call names a tool of [self.tools] whose
    invocation raised, and no call after it was run. *)
Lemma run_tool_calls_raise_first ag calls ev e :
  LangGraph.run_tool_calls ag calls = (ev, Raise e) ->
  exists pre t post tool, calls = pre ++ t :: post /\
    Forall (fun t' => exists m, snd (LangGraph.run_tool_call ag t') = Ok m) pre /\
    dict_get (LangGraph.tools ag) (LangGraph.tc_name t) = Some tool /\
    LangGraph.tool_invoke tool (LangGraph.tc_args t) = Raise e /\
    ev = LangGraphSpec.invocations ag (pre ++ [t]).
Proof.
  revert ev. induction calls as [|t ts IH]; intros ev H; [discriminate H|].
  cbn [LangGraph.run_tool_calls] in H.
  destruct (LangGraph.run_tool_call ag t) as [ev0 r0] eqn:Hrt.
  destruct r0 as [m0|e0].
  - rewrite bind_Ok in H.
    destruct (LangGraph.run_tool_calls ag ts) as [ev' [ms'|e']] eqn:Hr;
      rewrite ?bind_Ok, ?bind_Raise in H; simpl in H; [discriminate H|].
    injection H as Hev He. subst e.
    destruct (IH ev' eq_refl) as (pre & t1 & post & tool & -> & Hpre & Hd & Hi & Hev').
    exists (t :: pre), t1, post, tool. split; [reflexivity|].
    split; [constructor; [exists m0; rewrite Hrt; reflexivity | exact Hpre]|].
    split; [exact Hd|]. split; [exact Hi|].
    assert (Hev0 : ev0 = match dict_get (LangGraph.tools ag) (LangGraph.tc_name t) with
                         | None => []
                         | Some _ => [EvTool (LangGraph.tc_name t) (LangGraph.tc_args t)]
                         end).
    { unfold LangGraph.run_tool_call in Hrt.
      destruct (dict_get (LangGraph.tools ag) (LangGraph.tc_name t)) as [tool0|].
      - destruct (LangGraph.tool_invoke tool0 (LangGraph.tc_args t)); eff_simpl;
          inversion Hrt; reflexivity.
      - eff_simpl. inversion Hrt. reflexivity. }
    subst ev ev' ev0. reflexivity.
  - rewrite bind_Raise in H. injection H as Hev He. subst ev0 e0.
    unfold LangGraph.run_tool_call in Hrt.
    destruct (dict_get (LangGraph.tools ag) (LangGraph.tc_name t)) as [tool|] eqn:Hd;
      [|eff_simpl; discriminate Hrt].
    destruct (LangGraph.tool_invoke tool (LangGraph.tc_args t)) as [v|e0] eqn:Hi;
      eff_simpl; [discriminate Hrt|]. injection Hrt as Hev He. subst.
    exists [], t, ts, tool. repeat split; auto.
    unfold LangGraphSpec.invocations. simpl. rewrite Hd. reflexivity.
Qed.

(** Claim C8, as amended: in the LangGraph agent and in the hand-rolled
    ReAct loop, tool dispatch is done by repository code.  The [Agent] builds
    [self.tools] from its tool list (a later tool of the same name replaces an
    earlier one).  [take_action] goes through the tool calls in order and
    runs, for each, the tool it finds in [self.tools] under the call's name;
    what it does depends on [self.tools] only through these lookups.  When
    it returns, it has invoked exactly the tools found, in order, and
    answered each call; when it raises, the first failing invocation is the
    last one made.  [query] applies the function it finds in
    [known_actions] under the parsed action name. *)
Theorem dispatch_by_lookup :
  (forall model ts system name,
      dict_get (LangGraph.tools (LangGraph.make_agent model ts system)) name =
      find (fun t => String.eqb name (LangGraph.tool_name t)) (rev ts))
  /\ (forall ag ag' st calls,
        LangGraph.last_tool_calls st = Ok calls ->
        Forall (fun t => dict_get (LangGraph.tools ag') (LangGraph.tc_name t) =
                         dict_get (LangGraph.tools ag) (LangGraph.tc_name t)) calls ->
        LangGraph.take_action ag' st = LangGraph.take_action ag st)
  /\ (forall ag st calls ev ms,
        LangGraph.last_tool_calls st = Ok calls ->
        LangGraph.take_action ag st = (ev, Ok ms) ->
        ev = LangGraphSpec.invocations ag calls /\ Forall2 (LangGraphSpec.call_answer ag) calls ms)
  /\ (forall ag st calls ev e,
        LangGraph.last_tool_calls st = Ok calls ->
        LangGraph.take_action ag st = (ev, Raise e) ->
        exists pre t post tool, calls = pre ++ t :: post /\
          Forall (fun t' => exists m, snd (LangGraph.run_tool_call ag t') = Ok m) pre /\
          dict_get (LangGraph.tools ag) (LangGraph.tc_name t) = Some tool /\
          LangGraph.tool_invoke tool (LangGraph.tc_args t) = Raise e /\
          ev = LangGraphSpec.invocations ag (pre ++ [t]))
  /\ (forall client known b p result action action_input,
        client (ReAct.messages b ++ [ReAct.mk_msg "user" p]) = Ok result ->
        ReAct.first_action result = Some (action, action_input) ->
        snd (ReAct.turn client known b p) =
        match dict_get known action with
        | None => ([EvModel], Raise (Exception (ReAct.unknown_action_msg action action_input)))
        | Some f =>
            ([EvModel; EvTool action action_input],
             match f action_input with
             | Ok obs => Ok (Some ("Observation: " +s+ py_str obs))
             | Raise e => Raise e
             end)
        end).
Proof.
  split.
  { intros model ts system name. unfold LangGraph.make_agent. simpl.
    rewrite tools_dict_get. destruct (find _ _); reflexivity. }
  split.
  { intros ag ag' st calls Hl Hf.
    rewrite (LangGraphFacts.take_action_calls ag' st _ Hl),
            (LangGraphFacts.take_action_calls ag st _ Hl).
    apply run_tool_calls_congr. exact Hf. }
  split.
  { intros ag st calls ev ms Hl H. rewrite (LangGraphFacts.take_action_calls ag st _ Hl) in H.
    apply LangGraphFacts.run_tool_calls_ok in H. destruct H as [H1 H2]. auto. }
  split.
  { intros ag st calls ev e Hl H. rewrite (LangGraphFacts.take_action_calls ag st _ Hl) in H.
    exact (run_tool_calls_raise_first ag calls ev e H). }
  { intros client known b p result action action_input Hc Ha.
    rewrite ReActFacts.turn_eq.
    replace (snd (ReAct.bot_call client b p)) with (Ok result : res string)
      by (rewrite ReActFacts.bot_call_eq; simpl; symmetry; exact Hc).
    simpl. rewrite Ha. destruct (dict_get known action) as [f|]; [|reflexivity].
    destruct (f action_input); reflexivity. }
Qed.

End Recovery.

(** ** The two agent loops compared *)
Module CompareFacts.
Import LangGraph ReAct CompareSpec StringFacts.

















End CompareFacts.

(** ** Further properties of the LangGraph agent *)
Module GraphMore.
Import LangGraph LangGraphSpec MoreSpec LangGraphFacts.

Lemma run_graph_state ag fuel n st :
  final_state (run_graph ag fuel n st) = st ++ concat (map snd (steps (run_graph ag fuel n st))).
Proof.
  revert n st. induction fuel as [|f IH]; intros n st; simpl; [rewrite app_nil_r; reflexivity|].
  destruct (node_fn ag n st) as [ev [upd|e]]; simpl; [|rewrite app_nil_r; reflexivity].
  destruct n.
  - destruct (exists_action (st ++ upd)) as [[|]|e]; simpl.
    + unfold cons_step; simpl. rewrite IH, app_assoc. reflexivity.
    + rewrite !app_nil_r. reflexivity.
    + rewrite app_nil_r. reflexivity.
  - unfold cons_step; simpl. rewrite IH, app_assoc. reflexivity.
Qed.

Lemma take_action_tool_msgs ag st ev ms :
  take_action ag st = (ev, Ok ms) -> Forall (fun m => is_input_msg m = false) ms.
Proof.
  unfold take_action. destruct (last_tool_calls st) as [calls|e]; eff_simpl; [|discriminate].
  intros H. destruct (run_tool_calls ag calls) as [ev' r] eqn:Hr. simpl in H.
  inversion H; subst. apply run_tool_calls_ok in Hr. destruct Hr as [HF _].
  clear H. induction HF as [|t m ts ms' Hm _ IH]; [constructor|]. constructor; [|exact IH].
  destruct Hm as [[_ ->] | (tool & v & _ & _ & ->)]; reflexivity.
Qed.

Lemma run_graph_adds ag fuel n st :
  Forall (fun m => is_input_msg m = false) (concat (map snd (steps (run_graph ag fuel n st)))).
Proof.
  revert n st. induction fuel as [|f IH]; intros n st; simpl; [constructor|].
  destruct (node_fn ag n st) as [ev [upd|e]] eqn:Hn; simpl; [|constructor].
  destruct n.
  - simpl in Hn. apply call_openai_ok in Hn. destruct Hn as [_ [msg ->]].
    destruct (exists_action (st ++ [AIMsg msg])) as [[|]|e]; simpl; auto.
  - simpl in Hn. apply Forall_app. split; [eapply take_action_tool_msgs; eauto | apply IH].
Qed.

Lemma call_answers_keys ag calls ms :
  Forall2 (call_answer ag) calls ms -> map answer_key ms = map call_key calls.
Proof.
  induction 1 as [|t m ts ms' Hm _ IH]; simpl; [reflexivity|]. rewrite IH.
  destruct Hm as [[_ ->] | (tool & v & _ & _ & ->)]; reflexivity.
Qed.

Lemma run_graph_first_action ag fuel st u :
  nth_error (steps (run_graph ag fuel ACTION st)) 0 = Some (ACTION, u) ->
  exists ev, take_action ag st = (ev, Ok u).
Proof.
  destruct fuel as [|f]; simpl; [discriminate|].
  destruct (take_action ag st) as [ev [upd|e]]; simpl; [|discriminate].
  intros H. inversion H; subst. eauto.
Qed.

Lemma run_graph_answers ag fuel n st i m u :
  nth_error (steps (run_graph ag fuel n st)) i = Some (LLM, [AIMsg m]) ->
  nth_error (steps (run_graph ag fuel n st)) (S i) = Some (ACTION, u) ->
  Forall2 (call_answer ag) (tool_calls m) u.
Proof.
  revert n st i. induction fuel as [|f IH]; intros n st i H1 H2; [destruct i; discriminate H1|].
  simpl in H1, H2. destruct (node_fn ag n st) as [ev [upd|e]] eqn:Hn;
    [|destruct i; discriminate H1].
  destruct n.
  - simpl in Hn. apply call_openai_ok in Hn. destruct Hn as [_ [msg ->]].
    rewrite exists_action_llm in *.
    destruct (0 <? length (tool_calls msg)); simpl in H1, H2.
    + destruct i as [|j]; simpl in H1, H2.
      * inversion H1; subst.
        destruct (run_graph_first_action ag f _ u H2) as [ev' Ht].
        rewrite (take_action_calls ag _ (tool_calls m)) in Ht.
        -- apply run_tool_calls_ok in Ht. apply Ht.
        -- unfold last_tool_calls. rewrite last_elem_snoc. reflexivity.
      * apply (IH ACTION _ j H1 H2).
    + destruct i; discriminate H2.
  - destruct i as [|j]; simpl in H1, H2; [discriminate H1|].
    apply (IH LLM _ j H1 H2).
Qed.

Lemma call_openai_raise ag st ev e :
  call_openai ag st = (ev, Raise e) -> model ag (model_input ag st) = Raise e.
Proof.
  unfold call_openai, model_input. eff_simpl.
  destruct (model ag _) as [msg|e']; eff_simpl; congruence.
Qed.

Lemma run_graph_abort_source ag fuel n st nd e :
  (n = ACTION -> exists pre m, st = pre ++ [AIMsg m]) ->
  result (run_graph ag fuel n st) = Aborted nd e ->
  (nd = LLM /\ model ag (model_input ag (final_state (run_graph ag fuel n st))) = Raise e)
  \/ (nd = ACTION /\ exists pre m t tool,
        final_state (run_graph ag fuel n st) = pre ++ [AIMsg m] /\ In t (tool_calls m) /\
        dict_get (tools ag) (tc_name t) = Some tool /\ tool_invoke tool (tc_args t) = Raise e).
Proof.
  revert n st. induction fuel as [|f IH]; intros n st Hpre H; [discriminate H|].
  simpl in *. destruct (node_fn ag n st) as [ev [upd|e']] eqn:Hn.
  - destruct n.
    + simpl in Hn. apply call_openai_ok in Hn. destruct Hn as [_ [msg ->]].
      rewrite exists_action_llm in *.
      destruct (0 <? length (tool_calls msg)); simpl in *; [|discriminate H].
      apply (IH ACTION _ (fun _ => ex_intro _ st (ex_intro _ msg eq_refl)) H).
    + simpl in *. apply (IH LLM _ (fun E => ltac:(discriminate E)) H).
  - simpl in H. inversion H; subst nd e'. simpl.
    destruct n; simpl in Hn.
    + left. split; [reflexivity|]. eapply call_openai_raise; eauto.
    + right. split; [reflexivity|].
      destruct (Hpre eq_refl) as (pre & m & ->).
      rewrite (take_action_calls ag _ (tool_calls m)) in Hn.
      * destruct (run_tool_calls_raise ag _ _ _ Hn) as (t & tool & Hin & Hd & Hi).
        exists pre, m, t, tool. auto.
      * unfold last_tool_calls. rewrite last_elem_snoc. reflexivity.
Qed.

(** The graph state only grows: after a run, it is the input messages
    followed by the updates of the completed steps, in order.  A node that
    raises contributes nothing, so the results of the tool calls an action
    step ran before the failing one are dropped. *)
Theorem graph_state_accumulates ag fuel st :
  final_state (run_invoke ag fuel st) = st ++ concat (map snd (steps (run_invoke ag fuel st))).
Proof. apply run_graph_state. Qed.

(** A run adds only AI and tool messages: the final state is the input
    messages followed by messages none of which is a [SystemMessage] or a
    [HumanMessage].  In particular the system prompt, which [call_openai]
    puts in front of the model's input, is never stored in the state. *)
Theorem graph_adds_no_input_messages ag fuel st :
  exists added, final_state (run_invoke ag fuel st) = st ++ added /\
                Forall (fun m => is_input_msg m = false) added.
Proof.
  exists (concat (map snd (steps (run_invoke ag fuel st)))). split.
  - apply run_graph_state.
  - apply run_graph_adds.
Qed.

(** In a run, the action step that follows an llm step answers exactly
    the tool calls of that step's message: one [ToolMessage] per call, in
    the calls' order, carrying the call's id and name. *)
Theorem graph_action_answers_calls ag fuel st i m u :
  nth_error (steps (run_invoke ag fuel st)) i = Some (LLM, [AIMsg m]) ->
  nth_error (steps (run_invoke ag fuel st)) (S i) = Some (ACTION, u) ->
  map answer_key u = map call_key (tool_calls m).
Proof.
  intros H1 H2. apply (call_answers_keys ag). eapply run_graph_answers; eauto.
Qed.

Lemma graph_action_answers_calls_witness :
  nth_error (steps (run_invoke search_once_agent 4 [HumanMessage "q"])) 0
    = Some (LLM, [AIMsg (mk_ai EmptyString [search_call])]) /\
  nth_error (steps (run_invoke search_once_agent 4 [HumanMessage "q"])) 1
    = Some (ACTION, [ToolMessage "call_1" "tavily_search_results_json" "sunny"]) /\
  map answer_key [ToolMessage "call_1" "tavily_search_results_json" "sunny"]
    = map call_key (tool_calls (mk_ai EmptyString [search_call])).
Proof.
  assert (H1 : nth_error (steps (run_invoke search_once_agent 4 [HumanMessage "q"])) 0
                 = Some (LLM, [AIMsg (mk_ai EmptyString [search_call])])) by reflexivity.
  assert (H2 : nth_error (steps (run_invoke search_once_agent 4 [HumanMessage "q"])) 1
                 = Some (ACTION, [ToolMessage "call_1" "tavily_search_results_json" "sunny"]))
    by reflexivity.
  split; [exact H1|]. split; [exact H2|].
  exact (graph_action_answers_calls search_once_agent 4 [HumanMessage "q"] 0 _ _ H1 H2).
Defined.

(** Only the model and the tools abort a run: the conditional edge
    [exists_action] and the [tool_calls] lookup of [take_action] never
    raise, since each reads the [AIMessage] the llm step has just added.  A
    run aborted at llm ends in a state on which the model (given the system
    prompt first) raised; a run aborted at action ends in a state whose last
    message has a tool call naming a known tool that raised. *)
Theorem graph_aborts_only_in_model_or_tool ag fuel st e :
  (result (run_invoke ag fuel st) = Aborted LLM e ->
     model ag (model_input ag (final_state (run_invoke ag fuel st))) = Raise e)
  /\ (result (run_invoke ag fuel st) = Aborted ACTION e ->
        exists pre m t tool,
          final_state (run_invoke ag fuel st) = pre ++ [AIMsg m] /\ In t (tool_calls m) /\
          dict_get (tools ag) (tc_name t) = Some tool /\ tool_invoke tool (tc_args t) = Raise e).
Proof.
  split; intros H;
    destruct (run_graph_abort_source ag fuel LLM st _ e (fun E => ltac:(discriminate E)) H)
      as [[E H'] | [E H']]; try discriminate E; auto.
Qed.

Lemma graph_aborts_only_in_model_or_tool_witness :
  result (run_invoke failing_search_agent 2 [HumanMessage "q"])
    = Aborted ACTION (mk_exn "ConnectionError" "search service unreachable") /\
  exists pre m t tool,
    final_state (run_invoke failing_search_agent 2 [HumanMessage "q"]) = pre ++ [AIMsg m] /\
    In t (tool_calls m) /\ dict_get (tools failing_search_agent) (tc_name t) = Some tool /\
    tool_invoke tool (tc_args t) = Raise (mk_exn "ConnectionError" "search service unreachable").
Proof.
  assert (H : result (run_invoke failing_search_agent 2 [HumanMessage "q"])
                = Aborted ACTION (mk_exn "ConnectionError" "search service unreachable"))
    by reflexivity.
  split; [exact H|].
  exact (proj2 (graph_aborts_only_in_model_or_tool failing_search_agent 2 [HumanMessage "q"] _) H).
Defined.

End GraphMore.

(** ** What [graph.invoke] does *)
Module GraphInvoke.
Import LangGraph LangGraphSpec MoreSpec LangGraphFacts GraphMore.









End GraphInvoke.

(** ** Further properties of the hand-rolled ReAct loop *)
Module ReActMore.
Import ReAct ReActSpec MoreSpec ReActFacts.

Lemma run_calls_cons client b m ms :
  run_calls client b (m :: ms) = run_calls client (fst (bot_call client b m)) ms.
Proof. reflexivity. Qed.

Lemma run_calls_users client b msgs :
  map content (filter is_user (messages (run_calls client b msgs))) =
  map content (filter is_user (messages b)) ++ msgs.
Proof.
  revert b. induction msgs as [|m ms IH]; intros b; simpl; [rewrite app_nil_r; reflexivity|].
  rewrite (IH (fst (bot_call client b m))), bot_call_eq. simpl.
  rewrite !filter_app, !map_app, <- app_assoc. f_equal. simpl.
  destruct (client (messages b ++ [mk_msg "user" m])); reflexivity.
Qed.

Lemma run_calls_roles client b msgs :
  (forall ms, exists r, client ms = Ok r) ->
  map role (messages (run_calls client b msgs)) =
  map role (messages b) ++ concat (repeat ["user"; "assistant"]%string (length msgs)).
Proof.
  intros Hc. revert b. induction msgs as [|m ms IH]; intros b; simpl;
    [rewrite app_nil_r; reflexivity|].
  rewrite (IH (fst (bot_call client b m))), bot_call_eq. simpl.
  destruct (Hc (messages b ++ [mk_msg "user" m])) as [r ->].
  rewrite !map_app, <- !app_assoc. reflexivity.
Qed.

(** The chat history of a ReAct [Agent] holds the messages sent to it as
    its user entries, in order, even when calls raise.  When every model
    request returns, the roles run: the system entry (for a non-empty
    system string), then one user and one assistant entry per call. *)
Theorem react_history_shape client system msgs :
  map content (filter is_user (messages (run_calls client (init_bot system) msgs))) = msgs
  /\ ((forall ms, exists r, client ms = Ok r) ->
      map role (messages (run_calls client (init_bot system) msgs)) =
      (if String.eqb system EmptyString then [] else ["system"%string])
        ++ concat (repeat ["user"; "assistant"]%string (length msgs))).
Proof.
  split.
  - rewrite run_calls_users. unfold init_bot.
    destruct (String.eqb system EmptyString); reflexivity.
  - intros Hc. rewrite (run_calls_roles client _ msgs Hc). unfold init_bot.
    destruct (String.eqb system EmptyString); reflexivity.
Qed.

Lemma react_history_shape_witness :
  (forall ms, exists r, demo_client ms = Ok r) /\
  map role (messages (run_calls demo_client (init_bot prompt) ["q"; "Observation: 8,800 lbs"]%string))
    = ["system"; "user"; "assistant"; "user"; "assistant"]%string.
Proof.
  assert (Hc : forall ms, exists r, demo_client ms = Ok r) by (intros; eexists; reflexivity).
  split; [exact Hc|].
  exact (proj2 (react_history_shape demo_client prompt ["q"; "Observation: 8,800 lbs"]%string) Hc).
Defined.

Lemma py_lower_char_idem c : py_lower_char (py_lower_char c) = py_lower_char c.
Proof. destruct c as [[] [] [] [] [] [] [] []]; vm_compute; reflexivity. Qed.

Lemma py_lower_idem s : py_lower (py_lower s) = py_lower s.
Proof. induction s as [|c s IH]; simpl; [reflexivity|]. rewrite py_lower_char_idem, IH. reflexivity. Qed.

Lemma py_lower_app a b : py_lower (a +s+ b) = py_lower a +s+ py_lower b.
Proof. induction a as [|c a IH]; simpl; [reflexivity|]. rewrite IH. reflexivity. Qed.

Lemma get_app_len x c : String.get (String.length x) (x +s+ String c EmptyString) = Some c.
Proof. induction x as [|c' x IH]; simpl; [reflexivity | exact IH]. Qed.

Lemma length_sapp a b : String.length (a +s+ b) = String.length a + String.length b.
Proof. induction a as [|c a IH]; simpl; [reflexivity|]. rewrite IH. reflexivity. Qed.

(** No key of [weights] ends in a space. *)
Lemma weights_no_trailing_space x : dict_get weights (x +s+ " ") = None.
Proof.
  assert (Hk : forall k, String.get (String.length k - 1) k = Some "t"%char ->
                         String.eqb (x +s+ " ") k = false).
  { intros k Hg. destruct (String.eqb (x +s+ " ") k) eqn:E; [|reflexivity].
    apply String.eqb_eq in E. subst k.
    rewrite length_sapp in Hg. simpl in Hg. rewrite Nat.add_sub in Hg.
    rewrite get_app_len in Hg. discriminate Hg. }
  unfold weights. simpl dict_get.
  repeat (rewrite Hk; [|reflexivity]). reflexivity.
Qed.

(** [average_elephant_weight] ignores letter case but not spaces: a name
    and its lower-case form give the same answer, and a name with a leading
    or a trailing space is an unknown species. *)
Theorem average_elephant_weight_case_and_spaces s :
  average_elephant_weight (py_lower s) = average_elephant_weight s
  /\ average_elephant_weight (" " +s+ s) = Ok (VStr unknown_species)
  /\ average_elephant_weight (s +s+ " ") = Ok (VStr unknown_species).
Proof.
  unfold average_elephant_weight. split; [rewrite py_lower_idem; reflexivity|]. split.
  - reflexivity.
  - rewrite py_lower_app. change (py_lower " ") with " "%string.
    rewrite weights_no_trailing_space. reflexivity.
Qed.

Lemma query_loop_raise client known n b p e :
  snd (query_loop client known n b p) = Raise e ->
  (exists ms, client ms = Raise e) \/
  (exists a x, dict_get known a = None /\ e = Exception (unknown_action_msg a x)) \/
  (exists a f x, dict_get known a = Some f /\ f x = Raise e).
Proof.
  revert b p. induction n as [|n IH]; intros b p H; [discriminate H|].
  simpl in H. rewrite turn_eq in H. rewrite bot_call_eq in H. simpl in H.
  destruct (client (messages b ++ [mk_msg "user" p])) as [result|e'] eqn:Hc; eff_simpl.
  2: { left. inversion H; subst. eauto. }
  destruct (first_action result) as [[action action_input]|]; eff_simpl; [|discriminate H].
  destruct (dict_get known action) as [f|] eqn:Hd; eff_simpl.
  2: { right; left. inversion H; subst. eauto. }
  destruct (f action_input) as [obs|e'] eqn:Hf; eff_simpl.
  2: { right; right. inversion H; subst. eauto. }
  destruct (query_loop client known n _ _) as [ev r] eqn:Hq. simpl in H.
  eapply IH. rewrite Hq. exact H.
Qed.

(** The only exceptions [query] raises come from the chat endpoint, from
    a model action that is neither [calculate] nor [average_elephant_weight]
    ("Unknown action"), or from Python's [eval] in [calculate]:
    [average_elephant_weight] never raises. *)
Theorem query_exceptions client py_eval question max_turns e :
  snd (query client py_eval question max_turns) = Raise e ->
  (exists ms, client ms = Raise e) \/
  (exists a x, a <> "calculate"%string /\ a <> "average_elephant_weight"%string /\
               e = Exception (unknown_action_msg a x)) \/
  (exists x, py_eval x = Raise e).
Proof.
  intros H. unfold query, query_with in H.
  destruct (query_loop_raise _ _ _ _ _ _ H) as [Hc | [(a & x & Hd & He) | (a & f & x & Hd & Hf)]].
  - left. exact Hc.
  - right; left. exists a, x. simpl in Hd.
    destruct (String.eqb a "calculate") eqn:E1; [discriminate Hd|].
    destruct (String.eqb a "average_elephant_weight") eqn:E2; [discriminate Hd|].
    apply String.eqb_neq in E1, E2. auto.
  - right; right. simpl in Hd.
    destruct (String.eqb a "calculate"); [inversion Hd; subst f; exists x; exact Hf|].
    destruct (String.eqb a "average_elephant_weight"); [|discriminate Hd].
    inversion Hd; subst f. discriminate Hf.
Qed.

Lemma query_exceptions_witness :
  snd (query failing_client no_eval "q" 5) = Raise (mk_exn "APIConnectionError" "Connection error.")
  /\ ((exists ms, failing_client ms = Raise (mk_exn "APIConnectionError" "Connection error.")) \/
      (exists a x, a <> "calculate"%string /\ a <> "average_elephant_weight"%string /\
                   mk_exn "APIConnectionError" "Connection error." = Exception (unknown_action_msg a x)) \/
      (exists x, no_eval x = Raise (mk_exn "APIConnectionError" "Connection error."))).
Proof.
  assert (H : snd (query failing_client no_eval "q" 5)
              = Raise (mk_exn "APIConnectionError" "Connection error.")) by reflexivity.
  split; [exact H|]. exact (query_exceptions failing_client no_eval "q" 5 _ H).
Defined.

End ReActMore.

(** ** Further properties of the network assistant *)
Module NetworkMore.
Import Network NetworkSpec NetworkIO MoreSpec NetworkFacts StringFacts.

Lemma main_loop_no_exit agent_run pre :
  Forall (fun u => is_exit u = false) pre ->
  (forall u e, agent_run u = Raise e -> is_Exception e = true) ->
  forall rest, main_loop agent_run (pre ++ rest) =
    (map (response_line agent_run) pre ++ fst (main_loop agent_run rest),
     snd (main_loop agent_run rest)).
Proof.
  intros Hpre Hexc. induction Hpre as [|u pre Hu _ IH]; intros rest;
    cbn [app map main_loop]; [destruct (main_loop agent_run rest); reflexivity|].
  unfold is_exit in Hu. rewrite Hu. unfold response_line.
  destruct (agent_run u) as [r|e] eqn:Hr.
  - rewrite IH. reflexivity.
  - rewrite (Hexc u e Hr). rewrite IH. reflexivity.
Qed.

(** The [__main__] loop prints one line per input ("Response:" and the
    answer, or "Error: " and the exception) until the first input that is
    "exit" or "quit" in any letter case, then prints "Goodbye!" and reads
    nothing more.  When no such input comes, the loop ends with the
    [EOFError] of [input()], which it does not catch. *)
Theorem main_loop_until_exit agent_run pre w post :
  Forall (fun u => is_exit u = false) pre ->
  (forall u e, agent_run u = Raise e -> is_Exception e = true) ->
  (is_exit w = true ->
   main_loop agent_run (pre ++ w :: post) =
     (map (response_line agent_run) pre ++ ["Goodbye!"%string], Ok tt))
  /\ main_loop agent_run pre =
       (map (response_line agent_run) pre, Raise (mk_exn "EOFError" "EOF when reading a line")).
Proof.
  intros Hpre Hexc. split.
  - intros Hw. rewrite (main_loop_no_exit agent_run pre Hpre Hexc). cbn [main_loop].
    unfold is_exit in Hw. rewrite Hw. reflexivity.
  - rewrite <- (app_nil_r pre) at 1. rewrite (main_loop_no_exit agent_run pre Hpre Hexc).
    cbn [main_loop fst snd]. rewrite app_nil_r. reflexivity.
Qed.

Lemma main_loop_until_exit_witness :
  main_loop (fun u => Ok u) (["show version"%string] ++ "EXIT"%string :: ["show run"%string])
    = (["Response:" +s+ nl_str +s+ "show version"; "Goodbye!"]%string, Ok tt).
Proof.
  apply (proj1 (main_loop_until_exit (fun u => Ok u) ["show version"%string] "EXIT" ["show run"%string]
                  ltac:(repeat constructor) ltac:(intros u e H; discriminate H)) eq_refl).
Defined.

(** [execute_cisco_command] connects to the one hard-coded device, sends
    the command unchanged, and disconnects only after [send_command]
    returned: when sending raises an [Exception], the function returns
    "Error: <e>" without closing the connection.  The recorded calls agree
    with [execute_cisco_command] on the result. *)
Theorem execute_cisco_command_calls {Conn} (nm : Netmiko Conn) command :
  snd (execute_cisco_command_io nm command) = execute_cisco_command nm command
  /\ (In CallDisconnect (fst (execute_cisco_command_io nm command)) <->
      exists c out, ConnectHandler nm device = Ok c /\ send_command nm c command = Ok out)
  /\ (exists rest, fst (execute_cisco_command_io nm command) = CallConnect device :: rest /\
        incl rest [CallSend command; CallDisconnect])
  /\ (forall c e, ConnectHandler nm device = Ok c -> send_command nm c command = Raise e ->
        is_Exception e = true ->
        execute_cisco_command_io nm command =
          ([CallConnect device; CallSend command], Ok ("Error: " +s+ exn_msg e))).
Proof.
  unfold execute_cisco_command_io, execute_cisco_command, catch_exception.
  destruct (ConnectHandler nm device) as [c|e] eqn:Hc; simpl.
  - destruct (send_command nm c command) as [out|e] eqn:Hs; simpl.
    + destruct (disconnect nm c) as [u|e] eqn:Hd; simpl.
      * repeat split; eauto.
        -- exists [CallSend command; CallDisconnect]. split; [reflexivity | apply incl_refl].
        -- intros c' e H1 H2. inversion H1; subst. congruence.
      * repeat split; eauto.
        -- exists [CallSend command; CallDisconnect]. split; [reflexivity | apply incl_refl].
        -- intros c' e' H1 H2. inversion H1; subst. congruence.
    + repeat split.
      * intros [H | [H | []]]; discriminate H.
      * intros (c' & out & H1 & H2). inversion H1; subst. congruence.
      * exists [CallSend command]. split; [reflexivity|]. intros x [<- | []]; simpl; auto.
      * intros c' e' H1 H2 H3. inversion H1; subst. rewrite H2 in Hs. inversion Hs; subst.
        rewrite H3. reflexivity.
  - repeat split.
    + intros [H | []]; discriminate H.
    + intros (c' & out & H1 & _). discriminate H1.
    + exists []. split; [reflexivity|]. intros x [].
    + intros c' e' H1. discriminate H1.
Qed.
Lemma execute_cisco_command_calls_witness :
  execute_cisco_command_io flaky_session "show version" =
    ([CallConnect device; CallSend "show version"], Ok "Error: Pattern not detected")%string.
Proof.
  exact (proj2 (proj2 (proj2 (execute_cisco_command_calls flaky_session "show version")))
           tt _ eq_refl eq_refl eq_refl).
Defined.


Lemma split_nl_nonempty s : split_nl s <> [].
Proof. destruct s as [|c r]; simpl; [discriminate|]. destruct (Ascii.eqb c nl); [discriminate|].
  destruct (split_nl r); discriminate. Qed.

Lemma split_nl_len_cons c r :
  length (split_nl (String c r)) = (if Ascii.eqb c nl then 1 else 0) + length (split_nl r).
Proof.
  simpl. destruct (Ascii.eqb c nl); [reflexivity|].
  pose proof (split_nl_nonempty r). destruct (split_nl r); [congruence | reflexivity].
Qed.

Lemma split_nl_len_app a b :
  no_nl a = true -> length (split_nl (a +s+ b)) = length (split_nl b).
Proof.
  unfold no_nl. induction a as [|c a IH]; intros Ha; [reflexivity|].
  cbn [all_chars String.append] in *.
  apply andb_prop in Ha. destruct Ha as [Hc Ha].
  rewrite split_nl_len_cons. destruct (Ascii.eqb c nl); [discriminate Hc|]. simpl. auto.
Qed.

Lemma starts_ci_nl kw r : plain_keyword kw = true -> starts_ci kw (String nl r) = false.
Proof.
  intros Hp. unfold plain_keyword in Hp. apply andb_prop in Hp. destruct Hp as [Hk Hne].
  destruct kw as [|k kw]; [discriminate Hne|]. simpl in Hk |- *.
  apply andb_prop in Hk. destruct Hk as [Hk _]. apply andb_prop in Hk. destruct Hk as [Hlow Hnl].
  apply Ascii.eqb_eq in Hlow. rewrite Hlow, lower_nl.
  destruct (Ascii.eqb k nl) eqn:E; [discriminate Hnl|]. reflexivity.
Qed.

Lemma line_bound_le s : line_bound s <= length (split_nl s).
Proof. destruct s; simpl; lia. Qed.

Lemma findall_scan_lines kw :
  plain_keyword kw = true -> forall fuel s, length (findall_scan fuel kw s) <= line_bound s.
Proof.
  intros Hp fuel. induction fuel as [fuel IH] using (well_founded_induction lt_wf).
  intros s. destruct fuel as [|f]; [simpl; lia|].
  destruct s as [|c r]; [simpl; lia|].
  cbn [findall_scan line_bound].
  destruct (starts_ci kw (String c r)) eqn:Hs.
  - destruct (break_nl (String c r)) as [m rest] eqn:Hb.
    apply break_nl_inv in Hb. destruct Hb as (Heq & Hm & Hr).
    cbn [length]. rewrite Heq, (split_nl_len_app m rest Hm).
    destruct rest as [|c' r']; [destruct f; simpl; lia|].
    simpl in Hr. subst c'.
    rewrite split_nl_len_cons, Ascii.eqb_refl.
    destruct f as [|f']; simpl; [lia|].
    rewrite (starts_ci_nl kw r' Hp).
    pose proof (IH f' ltac:(lia) r'). pose proof (line_bound_le r'). lia.
  - rewrite split_nl_len_cons. pose proof (IH f ltac:(lia) r). pose proof (line_bound_le r). lia.
Qed.

Lemma findall_ci_lines kw s :
  plain_keyword kw = true -> length (findall_ci kw s) <= length (split_nl s).
Proof.
  intros Hp. unfold findall_ci. pose proof (findall_scan_lines kw Hp (S (String.length s)) s).
  pose proof (line_bound_le s). lia.
Qed.

(** [analyze_logs] reports at most one error match and one warning match
    per line of the log: [re.findall(r"error.*", ...)] takes the rest of
    the line from its first match, so several errors on one line make one
    issue.  Every reported error issue starts with "error" and every
    warning issue with "warning", in any letter case. *)
Theorem analyze_logs_per_line log_data :
  exists errors warnings,
    analyze_logs log_data =
      match errors ++ warnings with [] => no_issues | issues => String.concat nl_str issues end
    /\ length errors <= length (split_nl log_data)
    /\ length warnings <= length (split_nl log_data)
    /\ Forall (fun m => starts_ci "error" m = true) errors
    /\ Forall (fun m => starts_ci "warning" m = true) warnings.
Proof.
  exists (findall_ci "error" log_data), (findall_ci "warning" log_data).
  split; [apply analyze_logs_eq|].
  assert (Me := findall_scan_matches (S (String.length log_data)) "error" log_data eq_refl).
  assert (Mw := findall_scan_matches (S (String.length log_data)) "warning" log_data eq_refl).
  repeat split.
  - apply findall_ci_lines. reflexivity.
  - apply findall_ci_lines. reflexivity.
  - eapply Forall_impl; [|exact Me]. intros m (pre & post & _ & H & _). exact H.
  - eapply Forall_impl; [|exact Mw]. intros m (pre & post & _ & H & _). exact H.
Qed.

End NetworkMore.

(** ** Further properties of the RAG notebook *)
Module RagMore.
Import Pdf RAG MoreSpec.

Lemma extract_loop_ok {Doc Page} (fz : Fitz Doc Page) paths acc out :
  extract_loop fz paths acc = Ok out <->
  exists ts, out = acc ++ ts /\ Forall2 (fun p t => read_pdf fz p = Ok t) paths ts.
Proof.
  revert acc. induction paths as [|p ps IH]; intros acc; simpl.
  - split.
    + intros H. inversion H; subst. exists []. rewrite app_nil_r. auto.
    + intros (ts & -> & HF). inversion HF; subst. rewrite app_nil_r. reflexivity.
  - unfold read_pdf. destruct (fitz_open fz p) as [doc|e] eqn:Ho; simpl.
    2: { split; [discriminate|]. intros (ts & _ & HF). inversion HF as [|? ? ? ? Ht]; subst.
         rewrite Ho in Ht. discriminate Ht. }
    destruct (page_texts fz (doc_pages fz doc)) as [texts|e] eqn:Hp; simpl.
    2: { split; [discriminate|]. intros (ts & _ & HF). inversion HF as [|? ? ? ? Ht]; subst.
         rewrite Ho in Ht. simpl in Ht. rewrite Hp in Ht. discriminate Ht. }
    rewrite IH. split.
    + intros (ts & -> & HF). exists (String.concat nl_str texts :: ts).
      rewrite <- app_assoc. split; [reflexivity|]. constructor; [|exact HF].
      unfold read_pdf. rewrite Ho. simpl. rewrite Hp. reflexivity.
    + intros (ts & -> & HF). inversion HF as [|p' t ps' ts' Ht HF']; subst.
      unfold read_pdf in Ht. rewrite Ho in Ht. simpl in Ht. rewrite Hp in Ht.
      inversion Ht; subst. exists ts'. rewrite <- app_assoc. auto.
Qed.

Lemma extract_loop_raise {Doc Page} (fz : Fitz Doc Page) paths acc e :
  extract_loop fz paths acc = Raise e ->
  exists pre p post, paths = pre ++ p :: post /\
    Forall (fun q => exists t, read_pdf fz q = Ok t) pre /\ read_pdf fz p = Raise e.
Proof.
  revert acc. induction paths as [|p ps IH]; intros acc H; simpl in H; [discriminate H|].
  destruct (read_pdf fz p) as [t|e'] eqn:Hr.
  - unfold read_pdf in Hr.
    destruct (fitz_open fz p) as [doc|e0] eqn:Ho; simpl in *; [|discriminate Hr].
    destruct (page_texts fz (doc_pages fz doc)) as [texts|e0] eqn:Hp; simpl in *; [|discriminate Hr].
    destruct (IH _ H) as (pre & q & post & -> & Hpre & Hq).
    exists (p :: pre), q, post. split; [reflexivity|]. split; [|exact Hq].
    constructor; [|exact Hpre]. exists t. unfold read_pdf. rewrite Ho. simpl. rewrite Hp. exact Hr.
  - exists [], p, ps. split; [reflexivity|]. split; [constructor|].
    unfold read_pdf in *.
    destruct (fitz_open fz p) as [doc|e0]; simpl in *; [|congruence].
    destruct (page_texts fz (doc_pages fz doc)) as [texts|e0]; simpl in *; [discriminate Hr | congruence].
Qed.

(** [extract_text_from_pdfs] returns one text per path, in the order of
    the paths, each the page texts of that PDF joined by newlines; if a PDF
    cannot be opened or a page cannot be read, it raises the exception of
    the first such PDF, all the ones before it having been read. *)
Theorem extract_text_from_pdfs_spec {Doc Page} (fz : Fitz Doc Page) paths :
  (forall out, extract_text_from_pdfs fz paths = Ok out <->
               Forall2 (fun p t => read_pdf fz p = Ok t) paths out)
  /\ (forall e, extract_text_from_pdfs fz paths = Raise e ->
        exists pre p post, paths = pre ++ p :: post /\
          Forall (fun q => exists t, read_pdf fz q = Ok t) pre /\ read_pdf fz p = Raise e).
Proof.
  split.
  - intros out. unfold extract_text_from_pdfs. rewrite extract_loop_ok. split.
    + intros (ts & -> & HF). exact HF.
    + intros HF. exists out. auto.
  - intros e. apply extract_loop_raise.
Qed.
Lemma extract_text_from_pdfs_spec_witness :
  extract_text_from_pdfs demo_fitz ["a.pdf"; "missing.pdf"; "b.pdf"]%string
    = Raise (mk_exn "FileNotFoundError" "no such file: 'missing.pdf'") /\
  exists pre p post, ["a.pdf"; "missing.pdf"; "b.pdf"]%string = pre ++ p :: post /\
    Forall (fun q => exists t, read_pdf demo_fitz q = Ok t) pre /\
    read_pdf demo_fitz p = Raise (mk_exn "FileNotFoundError" "no such file: 'missing.pdf'").
Proof.
  assert (H : extract_text_from_pdfs demo_fitz ["a.pdf"; "missing.pdf"; "b.pdf"]%string
                = Raise (mk_exn "FileNotFoundError" "no such file: 'missing.pdf'")) by reflexivity.
  split; [exact H|].
  exact (proj2 (extract_text_from_pdfs_spec demo_fitz _) _ H).
Defined.


(** The answer of the RAG graph depends only on the query: the documents
    and the response given to [app.invoke] are discarded.  A run that
    returns keeps the query, holds the documents the similarity search
    returned for it, and the response the LLM gave to the prompt built from
    the query and those documents. *)
Theorem rag_answer_from_query_only search llm st :
  (forall st', query st' = query st -> app_invoke search llm st' = app_invoke search llm st)
  /\ (forall out, app_invoke search llm st = Ok out ->
        query out = query st /\ search (query st) = Ok (documents out) /\
        llm (rag_prompt (query st) (documents out)) = Ok (response out)).
Proof.
  split.
  - intros st' Hq. unfold app_invoke, retrieve_documents. rewrite Hq. reflexivity.
  - intros out. unfold app_invoke, retrieve_documents, generate_answer.
    destruct (search (query st)) as [docs|e]; simpl; [|discriminate].
    destruct (llm _) as [answer|e] eqn:Hl; simpl; [|discriminate].
    intros H. inversion H; subst. simpl. auto.
Qed.
Lemma rag_answer_from_query_only_witness :
  app_invoke demo_search demo_llm
    (mk_rag_state "What is uSID?" [mk_document "stale"] "old answer")
  = app_invoke demo_search demo_llm (mk_rag_state "What is uSID?" [] EmptyString).
Proof.
  exact (proj1 (rag_answer_from_query_only demo_search demo_llm
                  (mk_rag_state "What is uSID?" [] EmptyString)) _ eq_refl).
Defined.


End RagMore.
